(** * Time-Bank chat relay: room identifiers, presence, typing, history
      and call artifacts

    A shallow embedding of the Socket.IO relay of the backend
    ([socket.on] handlers of the server file) and of the [createRoomId]
    helper of the front-end hook, followed by the properties the design
    document states about them. Further parts cover the conversation
    list and the listings API of the same server file, the message list
    of the chat window, and the escrow contract.

    Conventions of the embedding:
    - JavaScript strings are [string]s of 8-bit characters, read as
      ASCII: [toLowerCase] and [toUpperCase] act on the letters A-Z and
      a-z only (the identifiers are hexadecimal wallet addresses), and a
      statement about letter case is made for ASCII strings;
    - a field of an inbound payload is an [option]: [None] is a missing
      ([undefined]) field, so that the JavaScript test [!x] is
      [falsy x] below; a payload that is missing altogether is [None]
      where a listener reads its fields;
    - instants ([Date], ISO-8601 strings) are integers, the milliseconds
      since the epoch; call durations are integers below [2^53], on which
      the arithmetic of JavaScript numbers is exact, printed in decimal
      as JavaScript prints them;
    - the transport (Socket.IO) is modelled by its tables of connected
      sockets and joined rooms; it empties [socket.rooms] before it calls
      the [disconnect] listeners;
    - [Map] and [Set] objects are [gmap] and [gset];
    - every handler is a function from the server state to a new state
      and the list of effects it performed, in program order. *)

From Stdlib Require Import ZArith Ascii String DecimalString.
From stdpp Require Import base option strings gmap list sorting.

Open Scope string_scope.
Open Scope list_scope.
Open Scope Z_scope.

(** ** JavaScript primitives used by the program *)

Module JS.

(** An upper-case ASCII letter, code units 65..90. *)
Definition is_upper (c : ascii) : bool :=
  ((65 <=? N_of_ascii c) && (N_of_ascii c <=? 90))%N.

(** A lower-case ASCII letter, code units 97..122. *)
Definition is_lower (c : ascii) : bool :=
  ((97 <=? N_of_ascii c) && (N_of_ascii c <=? 122))%N.

(** The ASCII range, code units 0..127, and the strings made of it. The
    wallet addresses this program handles are such strings. On them the
    case mappings of JavaScript are the ones written below: a letter
    [A]..[Z] or [a]..[z] moves by 32, every other character stays.
    Outside the range JavaScript maps by the Unicode tables, which are
    not part of this development. *)
Definition is_ascii (c : ascii) : bool := (N_of_ascii c <? 128)%N.

Fixpoint ascii_string (s : string) : bool :=
  match s with
  | EmptyString => true
  | String c s' => is_ascii c && ascii_string s'
  end.

Definition lower_char (c : ascii) : ascii :=
  if is_upper c then ascii_of_N (N_of_ascii c + 32) else c.

Definition upper_char (c : ascii) : ascii :=
  if is_lower c then ascii_of_N (N_of_ascii c - 32) else c.

(** [String.prototype.toLowerCase], on ASCII strings. *)
Fixpoint toLowerCase (s : string) : string :=
  match s with
  | EmptyString => EmptyString
  | String c s' => String (lower_char c) (toLowerCase s')
  end.


(** Changing the case of a letter; other characters are left alone. *)
Definition swap_case (c : ascii) : ascii :=
  if is_upper c then lower_char c else upper_char c.

(** [recase mask s] changes the case of the letters of [s] at the
    positions where [mask] holds [true]: every way of changing the
    letter case of [s] is [recase mask s] for some [mask]. *)
Fixpoint recase (mask : list bool) (s : string) {struct s} : string :=
  match s with
  | EmptyString => EmptyString
  | String c s' =>
      match mask with
      | [] => s
      | b :: mask' => String (if b then swap_case c else c) (recase mask' s')
      end
  end.

(** The default order of [Array.prototype.sort]: code units compared
    lexicographically. *)
Definition string_le (x y : string) : bool := String.leb x y.

(** [Array.prototype.sort()] without a comparator, as a stable insertion
    sort. *)
Fixpoint sort_insert (x : string) (l : list string) : list string :=
  match l with
  | [] => [x]
  | y :: l' => if string_le x y then x :: l else y :: sort_insert x l'
  end.

Definition sort (l : list string) : list string :=
  foldr sort_insert [] l.

(** [`${a[i]}`]: an index out of range reads [undefined], which a
    template literal prints as the word. *)
Definition template_index (a : list string) (i : nat) : string :=
  nth i a "undefined".

(** [String.prototype.split] on a one-character separator. *)
Fixpoint split (sep : ascii) (s : string) : list string :=
  match s with
  | EmptyString => [EmptyString]
  | String c s' =>
      if decide (c = sep) then EmptyString :: split sep s'
      else match split sep s' with
           | piece :: pieces => String c piece :: pieces
           | [] => [String c EmptyString]
           end
  end.

(** [String(n)] for an integer [n]: its decimal digits, with a sign when
    negative. *)
Definition Number_toString (n : Z) : string :=
  NilZero.string_of_int (Z.to_int n).

(** [!x] for a string-valued field: missing or empty. *)
Definition falsy (x : option string) : bool :=
  match x with
  | None => true
  | Some s => bool_decide (s = "")
  end.

End JS.

(** ** The front-end helper [createRoomId] *)

(** [const sorted = [address1.toLowerCase(), address2.toLowerCase()].sort()]
    [return `${sorted[0]}_${sorted[1]}`] *)
Definition createRoomId (address1 address2 : string) : string :=
  let sorted := JS.sort [JS.toLowerCase address1; JS.toLowerCase address2] in
  JS.template_index sorted 0 +:+ "_" +:+ JS.template_index sorted 1.


(** ** Data model of the relay *)

(** The message object built by the [chat-message] and [video-call-ended]
    handlers; [duration] is present on call artifacts only. *)
Module ChatMessage.
Record t := mk {
  id : string;
  message : string;
  sender : string;
  timestamp : Z;
  type : string;
  duration : option Z
}.

#[global] Instance eq_dec : EqDecision t.
Proof. solve_decision. Defined.
End ChatMessage.

(** A document of the [chatMessages] collection: the message fields
    spread next to the room identifier. *)
Record Doc := mkDoc {
  doc_roomId : string;
  doc_fields : ChatMessage.t
}.

Inductive Status := online | offline.

#[global] Instance Status_eq_dec : EqDecision Status.
Proof. solve_decision. Defined.

(** Outbound events. *)
Inductive OutEvent :=
| user_status (userAddress : string) (status : Status)
| chat_history (messages : list ChatMessage.t)
| chat_message (messageObj : ChatMessage.t)
| typing (userAddress : string) (isTyping : bool)
| video_call_status (status sender roomId : string).

#[global] Instance OutEvent_eq_dec : EqDecision OutEvent.
Proof. solve_decision. Defined.

(** Where an [emit] is addressed: [io.to(room)], [socket.to(room)] (the
    room without the emitting socket) and [socket.emit]. *)
Inductive Target :=
| to_room (roomId : string)
| to_room_except (roomId socketId : string)
| to_socket (socketId : string).

#[global] Instance Target_eq_dec : EqDecision Target.
Proof. solve_decision. Defined.

Inductive Level := warn | error.

(** What a handler does to the outside, in program order. An [Emit]
    carries the sockets that receive it, as the transport resolves them
    when the call is made. [console.log] lines are informational and are
    not recorded; [console.warn] and [console.error] are, by the fixed
    part of their text. *)
Inductive Effect :=
| Emit (target : Target) (recipients : gset string) (ev : OutEvent)
| Console (level : Level) (line : string)
| InsertOne (doc : Doc)
| SetTimeout (delay : Z) (roomId otherUser : string).

(** An entry of [onlineUsers]. *)
Record Presence := mkPresence {
  socketIds : gset string;
  lastSeen : Z
}.

(** [socket.data]. *)
Record SocketData := mkData {
  data_userAddress : option string;
  data_roomId : option string
}.

(** The process state: the three module-level maps, the collection handle
    ([None] while MongoDB is not connected) with the documents in insertion
    order, and the transport's tables: the connected sockets with their
    [socket.data] ([io.sockets.sockets]) and, for each, the rooms it has
    joined in joining order ([socket.rooms]). *)
Record Server := mkServer {
  chatRoomsCache : gmap string (list ChatMessage.t);
  onlineUsers : gmap string Presence;
  typingUsers : gmap string (gset string);
  chatMessagesCollection : option (list Doc);
  sockets : gmap string SocketData;
  sids : gmap string (list string)
}.

Definition with_chatRoomsCache (f : gmap string (list ChatMessage.t) → gmap string (list ChatMessage.t))
    (st : Server) : Server :=
  mkServer (f (chatRoomsCache st)) (onlineUsers st) (typingUsers st)
           (chatMessagesCollection st) (sockets st) (sids st).

Definition with_onlineUsers (f : gmap string Presence → gmap string Presence)
    (st : Server) : Server :=
  mkServer (chatRoomsCache st) (f (onlineUsers st)) (typingUsers st)
           (chatMessagesCollection st) (sockets st) (sids st).

Definition with_typingUsers (f : gmap string (gset string) → gmap string (gset string))
    (st : Server) : Server :=
  mkServer (chatRoomsCache st) (onlineUsers st) (f (typingUsers st))
           (chatMessagesCollection st) (sockets st) (sids st).

Definition with_collection (f : option (list Doc) → option (list Doc))
    (st : Server) : Server :=
  mkServer (chatRoomsCache st) (onlineUsers st) (typingUsers st)
           (f (chatMessagesCollection st)) (sockets st) (sids st).

Definition with_sockets (f : gmap string SocketData → gmap string SocketData)
    (st : Server) : Server :=
  mkServer (chatRoomsCache st) (onlineUsers st) (typingUsers st)
           (chatMessagesCollection st) (f (sockets st)) (sids st).

Definition with_sids (f : gmap string (list string) → gmap string (list string))
    (st : Server) : Server :=
  mkServer (chatRoomsCache st) (onlineUsers st) (typingUsers st)
           (chatMessagesCollection st) (sockets st) (f (sids st)).

(** The server at start-up, before and after [connectMongoDB] succeeds. *)
Definition initial (collection : option (list Doc)) : Server :=
  mkServer ∅ ∅ ∅ collection ∅ ∅.

(** What the environment decides during one handler run: the clock
    ([Date.now()], [new Date()]), the suffix drawn from [Math.random()],
    and whether the store call made by the handler succeeds. *)
Record Env := mkEnv {
  now : Z;
  random : string;
  store_ok : bool
}.

(** ** Handlers as state-and-effect computations *)

Definition M (A : Type) : Type := Server → A * Server * list Effect.

#[global] Instance M_ret : MRet M := λ A a st, (a, st, []).

#[global] Instance M_bind : MBind M := λ A B k m st,
  let r := m st in
  let r' := k r.1.1 r.1.2 in
  (r'.1.1, r'.1.2, r.2 ++ r'.2).

Definition get : M Server := λ st, (st, st, []).
Definition modify (f : Server → Server) : M unit := λ st, ((), f st, []).
Definition tell (e : Effect) : M unit := λ st, ((), st, [e]).
Definition skip : M unit := mret ().

(** The state and the effects of a run. *)
Definition exec {A} (m : M A) (st : Server) : Server := (m st).1.2.
Definition effects {A} (m : M A) (st : Server) : list Effect := (m st).2.
Definition result {A} (m : M A) (st : Server) : A := (m st).1.1.

(** [for (const x of xs) body(x)] and [xs.forEach(body)]. *)
Fixpoint forEach {A} (xs : list A) (body : A → M unit) : M unit :=
  match xs with
  | [] => skip
  | x :: xs' => body x ;; forEach xs' body
  end.

(** *** The transport *)

(** [io.sockets.adapter.rooms.get(roomId)]: the sockets that joined the
    room (empty when the transport has no such room). *)
Definition room_members (roomId : string) (st : Server) : gset string :=
  dom (filter (λ kv, roomId ∈ kv.2) (sids st)).

(** [socket.rooms]. *)
Definition socket_rooms (socketId : string) (st : Server) : list string :=
  default [] (sids st !! socketId).

(** [socket.join(roomId)]. *)
Definition socket_join (socketId roomId : string) : M unit :=
  modify (with_sids (alter (λ rs, if decide (roomId ∈ rs) then rs else rs ++ [roomId]) socketId)).

(** [io.to(roomId).emit(...)]. *)
Definition io_to_emit (roomId : string) (ev : OutEvent) : M unit :=
  st ← get; tell (Emit (to_room roomId) (room_members roomId st) ev).

(** [socket.to(roomId).emit(...)]. *)
Definition socket_to_emit (socketId roomId : string) (ev : OutEvent) : M unit :=
  st ← get;
  tell (Emit (to_room_except roomId socketId) (room_members roomId st ∖ {[socketId]}) ev).

(** [socket.emit(...)]: reaches the socket while it is connected. *)
Definition socket_emit (socketId : string) (ev : OutEvent) : M unit :=
  st ← get;
  tell (Emit (to_socket socketId)
             (if decide (socketId ∈ dom (sockets st)) then {[socketId]} else ∅) ev).

Definition console_warn (line : string) : M unit := tell (Console warn line).
Definition console_error (line : string) : M unit := tell (Console error line).

(** A new connection: the transport registers the socket, with empty
    [socket.data], in the room named after its own id. *)
Definition connect (socketId : string) : M unit :=
  modify (with_sockets <[socketId := mkData None None]>) ;;
  modify (with_sids <[socketId := [socketId]]>).

(** What the transport does when a connection closes, before the
    [disconnect] listeners run: the socket leaves all its rooms and is
    removed from the table of connected sockets. *)
Definition cleanup (socketId : string) : M unit :=
  modify (with_sids (delete socketId)) ;;
  modify (with_sockets (delete socketId)).

(** ** The chat store adapter *)

(** The order [sort({ timestamp: 1 })] asks the store for. *)
Definition by_timestamp (d1 d2 : Doc) : Prop :=
  ChatMessage.timestamp (doc_fields d1) ≤ ChatMessage.timestamp (doc_fields d2).

#[global] Instance by_timestamp_dec : RelDecision by_timestamp.
Proof. intros d1 d2. unfold by_timestamp. apply _. Defined.

(** [find({ roomId }).sort({ timestamp: 1 }).toArray()]. *)
Definition find_sorted (roomId : string) (docs : list Doc) : list Doc :=
  merge_sort by_timestamp (filter (λ d, doc_roomId d = roomId) docs).

(** [saveChatMessageToDB]: without a collection the message is not
    persisted and a warning is printed; a failing [insertOne] is caught
    and printed as an error. The timestamp of the message is always set
    by the callers, so the [|| new Date()] default is never taken. *)
Definition saveChatMessageToDB (env : Env) (roomId : string)
    (messageObj : ChatMessage.t) : M bool :=
  st ← get;
  match chatMessagesCollection st with
  | None =>
      console_warn "[Chat] MongoDB not connected, message not persisted" ;;
      mret false
  | Some docs =>
      let doc := mkDoc roomId messageObj in
      tell (InsertOne doc) ;;
      if store_ok env then
        modify (with_collection (λ _, Some (docs ++ [doc]))) ;;
        mret true
      else
        console_error "[Chat] Failed to save message to MongoDB:" ;;
        mret false
  end.

(** [loadChatFromDB]: the documents of the room in timestamp order,
    without their [_id] and [roomId]; the empty list without a collection
    or when the query fails. *)
Definition loadChatFromDB (env : Env) (roomId : string) : M (list ChatMessage.t) :=
  st ← get;
  match chatMessagesCollection st with
  | None => mret []
  | Some docs =>
      if store_ok env then
        mret (doc_fields <$> find_sorted roomId docs)
      else
        console_error "[Chat] Failed to load from MongoDB:" ;;
        mret []
  end.

(** ** The socket handlers *)

(** The registration both [user-online] and [join-room] perform:
    create the entry if absent, add the socket, refresh [lastSeen]. *)
Definition mark_online (env : Env) (socketId normalizedAddress : string) : M unit :=
  modify (with_onlineUsers (λ m,
    let entry := default (mkPresence ∅ (now env)) (m !! normalizedAddress) in
    <[normalizedAddress := mkPresence (socketIds entry ∪ {[socketId]}) (now env)]> m)).

Definition set_data_userAddress (socketId normalizedAddress : string) : M unit :=
  modify (with_sockets (alter (λ d, mkData (Some normalizedAddress) (data_roomId d)) socketId)).

Definition set_data_roomId (socketId roomId : string) : M unit :=
  modify (with_sockets (alter (λ d, mkData (data_userAddress d) (Some roomId)) socketId)).

(** [socket.on("user-online", ...)]. *)
Definition on_user_online (env : Env) (socketId : string)
    (userAddress : option string) : M unit :=
  match userAddress with
  | Some address =>
      if JS.falsy userAddress then skip else
      let normalizedAddress := JS.toLowerCase address in
      mark_online env socketId normalizedAddress ;;
      set_data_userAddress socketId normalizedAddress ;;
      st ← get;
      forEach (socket_rooms socketId st) (λ roomId,
        if decide (roomId ≠ socketId) then
          io_to_emit roomId (user_status normalizedAddress online)
        else skip)
  | None => skip
  end.

(** The loop of [join-room] over the sockets of the room: does one of
    them belong to [otherUser]? *)
Definition other_in_room (roomId otherUser : string) (st : Server) : bool :=
  existsb (λ socketId,
             match sockets st !! socketId with
             | Some d => bool_decide (data_userAddress d = Some otherUser)
             | None => false
             end)
          (elements (room_members roomId st)).

(** The [onlineUsers] backup test of [join-room]. *)
Definition registry_online (otherUser : string) (st : Server) : bool :=
  match onlineUsers st !! otherUser with
  | Some entry => bool_decide (socketIds entry ≠ ∅)
  | None => false
  end.

(** The callback given to [setTimeout] by [join-room]. *)
Definition recheck_other (roomId otherUser : string) : M unit :=
  st ← get;
  if other_in_room roomId otherUser st then
    io_to_emit roomId (user_status otherUser online)
  else skip.

(** [join-room] from the point where [loadChatFromDB] has answered. *)
Definition join_room_loaded (socketId roomId normalizedAddress : string)
    (dbMessages : list ChatMessage.t) : M unit :=
  (if bool_decide (0 < length dbMessages)%nat then
     modify (with_chatRoomsCache <[roomId := dbMessages]>) ;;
     socket_emit socketId (chat_history dbMessages)
   else
     modify (with_chatRoomsCache <[roomId := []]>) ;;
     socket_emit socketId (chat_history [])) ;;
  match JS.split "_" roomId with
  | user1 :: user2 :: _ =>
      if bool_decide (user1 ≠ "") && bool_decide (user2 ≠ "") then
        let otherUser :=
          if decide (JS.toLowerCase user1 = normalizedAddress)
          then JS.toLowerCase user2 else JS.toLowerCase user1 in
        st ← get;
        let otherUserOnline :=
          other_in_room roomId otherUser st || registry_online otherUser st in
        socket_emit socketId
          (user_status otherUser (if otherUserOnline then online else offline)) ;;
        tell (SetTimeout 500 roomId otherUser)
      else skip
  | _ => skip
  end.

(** [join-room] up to its [await]. *)
Definition join_room_begin (env : Env) (socketId roomId normalizedAddress : string) : M unit :=
  socket_join socketId roomId ;;
  set_data_roomId socketId roomId ;;
  set_data_userAddress socketId normalizedAddress ;;
  mark_online env socketId normalizedAddress ;;
  io_to_emit roomId (user_status normalizedAddress online).

(** [socket.on("join-room", ...)], run without another event between the
    query and its answer. *)
Definition on_join_room (env : Env) (socketId : string)
    (roomId userAddress : option string) : M unit :=
  match roomId, userAddress with
  | Some room, Some address =>
      if JS.falsy roomId || JS.falsy userAddress then
        console_warn "[Chat] Invalid join-room request:"
      else
        let normalizedAddress := JS.toLowerCase address in
        join_room_begin env socketId room normalizedAddress ;;
        dbMessages ← loadChatFromDB env room;
        join_room_loaded socketId room normalizedAddress dbMessages
  | _, _ => console_warn "[Chat] Invalid join-room request:"
  end.

(** [socket.on("typing-start", ...)]; the payload is taken as the
    front-end sends it, with both fields. *)
Definition on_typing_start (socketId roomId userAddress : string) : M unit :=
  st ← get;
  (if decide (typingUsers st !! roomId = None) then
     modify (with_typingUsers <[roomId := ∅]>)
   else skip) ;;
  modify (with_typingUsers (alter (λ users, users ∪ {[userAddress]}) roomId)) ;;
  socket_to_emit socketId roomId (typing userAddress true).

(** [socket.on("typing-stop", ...)]. *)
Definition on_typing_stop (socketId roomId userAddress : string) : M unit :=
  st ← get;
  (if decide (is_Some (typingUsers st !! roomId)) then
     modify (with_typingUsers (alter (λ users, users ∖ {[userAddress]}) roomId)) ;;
     st' ← get;
     if decide (typingUsers st' !! roomId = Some ∅) then
       modify (with_typingUsers (delete roomId))
     else skip
   else skip) ;;
  socket_to_emit socketId roomId (typing userAddress false).

(** [io.sockets.adapter.rooms.get(roomId)?.size || 0]. *)
Definition userCount (roomId : string) (st : Server) : nat :=
  size (room_members roomId st).

(** [messages.push(messageObj)] on the cached array of the room, created
    empty when the room has none. *)
Definition cache_push (roomId : string) (messageObj : ChatMessage.t) : M unit :=
  st ← get;
  (if decide (chatRoomsCache st !! roomId = None) then
     modify (with_chatRoomsCache <[roomId := []]>)
   else skip) ;;
  modify (with_chatRoomsCache (alter (λ messages, messages ++ [messageObj]) roomId)).

(** The message object of the [chat-message] handler. *)
Definition chat_messageObj (env : Env) (message normalizedSender : string)
    (timestamp : option Z) (type : option string) : ChatMessage.t :=
  ChatMessage.mk (JS.Number_toString (now env) +:+ random env)
                 message normalizedSender
                 (default (now env) timestamp)
                 (default "text" type)
                 None.

(** [socket.on("chat-message", ...)] after its first statement, the
    destructuring of the payload. The store call is started after the
    broadcast and is not awaited; its completion is folded into the same
    run. *)
Definition on_chat_message (env : Env) (socketId : string)
    (roomId message sender : option string)
    (timestamp : option Z) (type : option string) : M unit :=
  match roomId, sender, message with
  | Some room, Some sender', Some message' =>
      if JS.falsy roomId || JS.falsy sender || JS.falsy message then
        console_warn "[Chat] Invalid message data:"
      else
        let normalizedSender := JS.toLowerCase sender' in
        st ← get;
        (if decide (is_Some (typingUsers st !! room)) then
           modify (with_typingUsers (alter (λ users, users ∖ {[normalizedSender]}) room)) ;;
           io_to_emit room (typing normalizedSender false)
         else skip) ;;
        let messageObj := chat_messageObj env message' normalizedSender timestamp type in
        cache_push room messageObj ;;
        st' ← get;
        (if decide (userCount room st' = 0%nat) then
           console_warn "[Chat] WARNING: Room has NO connected users! Message will not be delivered." ;;
           console_warn "[Chat] The other user must open the chat and join the room to receive messages."
         else skip) ;;
        io_to_emit room (chat_message messageObj) ;;
        _ ← saveChatMessageToDB env room messageObj;
        skip
  | _, _, _ => console_warn "[Chat] Invalid message data:"
  end.

(** The payload of a [chat-message] event, field by field. *)
Record ChatPayload := mkChatPayload {
  payload_roomId : option string;
  payload_message : option string;
  payload_sender : option string;
  payload_timestamp : option Z;
  payload_type : option string;
}.

(** How a listener ends: it returns, or an exception leaves it. The
    listeners have no [try] around their bodies, the program attaches no
    [catch] to what they return and registers no [unhandledRejection] or
    [uncaughtException] handler. *)
Inductive Completion :=
| returned
| thrown (error : string).

(** The server process: running in a state, or ended with an exit
    code. *)
Inductive Process :=
| running (st : Server)
| exited (code : Z).

(** What becomes of the process when a listener has run: Node.js, from
    the version 18 the set-up guide asks for, ends the process with
    code 1 on an exception or a rejection that nothing handles. *)
Definition after_listener (m : M Completion) (st : Server) : Process :=
  match result m st with
  | returned => running (exec m st)
  | thrown _ => exited 1
  end.

(** [socket.on("chat-message", async (data) => ...)] from the event as it
    arrives. [data] is [None] for an event sent without a payload
    ([undefined], or [null]): the first statement,
    [const { roomId, message, sender, timestamp, type = "text" } = data],
    then throws a [TypeError], before the guard is reached. *)
Definition chat_message_listener (env : Env) (socketId : string)
    (data : option ChatPayload) : M Completion :=
  match data with
  | None => mret (thrown "TypeError")
  | Some payload =>
      on_chat_message env socketId (payload_roomId payload)
        (payload_message payload) (payload_sender payload)
        (payload_timestamp payload) (payload_type payload) ;;
      mret returned
  end.

(** The guard of the listener fails: a field among [roomId], [sender]
    and [message] is missing or empty. *)
Definition missing_field (payload : ChatPayload) : bool :=
  JS.falsy (payload_roomId payload) || JS.falsy (payload_sender payload)
  || JS.falsy (payload_message payload).

(** [`${minutes}m ${seconds}s`] or [`${seconds}s`], with
    [minutes = Math.floor(duration / 60)] and [seconds = duration % 60].
    JavaScript computes on binary64 numbers; for an integer duration
    below [2^53] the quotient rounds to a number with the same floor and
    the remainder is exact, and both print in decimal, which is what is
    written here. *)
Definition durationText (duration : Z) : string :=
  let minutes := duration `div` 60 in
  let seconds := duration `rem` 60 in
  if bool_decide (0 < minutes)
  then JS.Number_toString minutes +:+ "m " +:+ JS.Number_toString seconds +:+ "s"
  else JS.Number_toString seconds +:+ "s".

(** The message object of the [video-call-ended] handler. *)
Definition call_messageObj (env : Env) (duration : Z) : ChatMessage.t :=
  ChatMessage.mk (JS.Number_toString (now env))
                 ("Video call ended - Duration: " +:+ durationText duration)
                 "system"
                 (now env)
                 "video-call"
                 (Some duration).

(** [socket.on("video-call-ended", ...)]; nothing of the payload is
    tested, and [sender] is read but not used. *)
Definition on_video_call_ended (env : Env) (socketId : string)
    (roomId : string) (duration : Z) (sender : option string) : M unit :=
  let messageObj := call_messageObj env duration in
  cache_push roomId messageObj ;;
  io_to_emit roomId (chat_message messageObj) ;;
  _ ← saveChatMessageToDB env roomId messageObj;
  skip.

(** [socket.on("video-call-status", ...)]. *)
Definition on_video_call_status (socketId : string)
    (roomId status sender : option string) : M unit :=
  match roomId, status, sender with
  | Some room, Some status', Some sender' =>
      if JS.falsy roomId || JS.falsy status || JS.falsy sender then
        console_warn "[VideoCall] Invalid video-call-status data:"
      else
        let normalizedSender := JS.toLowerCase sender' in
        st ← get;
        (if decide (userCount room st = 0%nat) then
           console_warn "[VideoCall] WARNING: Room has NO connected users! Call notification will not be delivered." ;;
           console_warn "[VideoCall] The other user must be on the Marketplace page to receive call notifications."
         else skip) ;;
        io_to_emit room (video_call_status status' normalizedSender room)
  | _, _, _ => console_warn "[VideoCall] Invalid video-call-status data:"
  end.

(** A truthy string field of [socket.data]. *)
Definition truthy (x : option string) : option string :=
  match x with
  | Some s => if decide (s = "") then None else Some s
  | None => None
  end.

(** [socket.on("disconnect", ...)], for the socket [socketId] whose
    [socket.data] is [data]; [socket.rooms] is read from the transport. *)
Definition on_disconnect (socketId : string) (data : SocketData) : M unit :=
  let userAddress := truthy (data_userAddress data) in
  let roomId := truthy (data_roomId data) in
  st ← get;
  match userAddress with
  | Some user =>
      if decide (is_Some (onlineUsers st !! user)) then
        modify (with_onlineUsers
                  (alter (λ entry, mkPresence (socketIds entry ∖ {[socketId]}) (lastSeen entry)) user)) ;;
        st' ← get;
        if registry_online user st' then skip
        else
          match roomId with
          | Some room => io_to_emit room (user_status user offline)
          | None => skip
          end ;;
          forEach (socket_rooms socketId st') (λ room,
            if decide (room ≠ socketId) then
              io_to_emit room (user_status user offline)
            else skip)
      else skip
  | None => skip
  end ;;
  st'' ← get;
  match roomId with
  | Some room =>
      if decide (is_Some (typingUsers st'' !! room)) then
        match userAddress with
        | Some user =>
            modify (with_typingUsers (alter (λ users, users ∖ {[user]}) room)) ;;
            io_to_emit room (typing user false)
        | None => skip
        end
      else skip
  | None => skip
  end.

(** The end of a connection as the transport runs it: the [disconnect]
    listeners are called once the socket has left its rooms. *)
Definition disconnect (socketId : string) : M unit :=
  st ← get;
  let data := default (mkData None None) (sockets st !! socketId) in
  cleanup socketId ;;
  on_disconnect socketId data.

(** The same listener bound to [disconnecting] instead: it runs while the
    socket is still in its rooms. *)
Definition disconnecting (socketId : string) : M unit :=
  st ← get;
  let data := default (mkData None None) (sockets st !! socketId) in
  on_disconnect socketId data ;;
  cleanup socketId.

(** ** Observations on a run *)

(** The events sent, with their addressees. *)
Definition emitted (effs : list Effect) : list (Target * gset string * OutEvent) :=
  omap (λ e, match e with Emit t r ev => Some (t, r, ev) | _ => None end) effs.

(** The documents handed to [insertOne]. *)
Definition store_calls (effs : list Effect) : list Doc :=
  omap (λ e, match e with InsertOne d => Some d | _ => None end) effs.

(** The cached messages of a room and the documents of the store. *)
Definition cached (roomId : string) (st : Server) : list ChatMessage.t :=
  default [] (chatRoomsCache st !! roomId).

Definition stored (st : Server) : list Doc :=
  default [] (chatMessagesCollection st).

(** How many times the room was told that the user went offline. *)
Definition offline_count (roomId user : string) (effs : list Effect) : nat :=
  length (filter (λ x, x.1.1 = to_room roomId ∧ x.2 = user_status user offline)
                 (emitted effs)).

(** The typing map holds no empty set. *)
Definition typing_inv (st : Server) : Prop :=
  map_Forall (λ _ users, users ≠ (∅ : gset string)) (typingUsers st).

(** The order of messages by timestamp. *)
Definition msg_le (m1 m2 : ChatMessage.t) : Prop :=
  ChatMessage.timestamp m1 ≤ ChatMessage.timestamp m2.

(** The histories sent in a run. *)
Definition histories (effs : list Effect) : list (list ChatMessage.t) :=
  omap (λ x, match x.2 with chat_history messages => Some messages | _ => None end)
       (emitted effs).

(** The chat messages sent in a run. *)
Definition chat_messages_sent (effs : list Effect) : list ChatMessage.t :=
  omap (λ x, match x.2 with chat_message m => Some m | _ => None end)
       (emitted effs).


(** The registry knows every identified socket: a connected socket
    whose [socket.data.userAddress] is [user] is in [user]'s set. *)
Definition presence_ok (socks : gmap string SocketData)
    (registry : gmap string Presence) : Prop :=
  ∀ socketId data user,
    socks !! socketId = Some data →
    data_userAddress data = Some user →
    ∃ entry, registry !! user = Some entry ∧ socketId ∈ socketIds entry.

Definition presence_inv (st : Server) : Prop :=
  presence_ok (sockets st) (onlineUsers st).

(** The events the server reacts to, each with what the environment
    decides during its handling. *)
Inductive Event :=
| ev_connect (socketId : string)
| ev_user_online (env : Env) (socketId : string) (userAddress : option string)
| ev_join_room (env : Env) (socketId : string) (roomId userAddress : option string)
| ev_recheck (roomId otherUser : string)
| ev_typing_start (socketId roomId userAddress : string)
| ev_typing_stop (socketId roomId userAddress : string)
| ev_chat_message (env : Env) (socketId : string)
    (roomId message sender : option string)
    (timestamp : option Z) (type : option string)
| ev_video_call_ended (env : Env) (socketId roomId : string) (duration : Z)
    (sender : option string)
| ev_video_call_status (socketId : string) (roomId status sender : option string)
| ev_disconnect (socketId : string).

Definition handle (e : Event) : M unit :=
  match e with
  | ev_connect socketId => connect socketId
  | ev_user_online env socketId userAddress =>
      on_user_online env socketId userAddress
  | ev_join_room env socketId roomId userAddress =>
      on_join_room env socketId roomId userAddress
  | ev_recheck roomId otherUser => recheck_other roomId otherUser
  | ev_typing_start socketId roomId userAddress =>
      on_typing_start socketId roomId userAddress
  | ev_typing_stop socketId roomId userAddress =>
      on_typing_stop socketId roomId userAddress
  | ev_chat_message env socketId roomId message sender timestamp type =>
      on_chat_message env socketId roomId message sender timestamp type
  | ev_video_call_ended env socketId roomId duration sender =>
      on_video_call_ended env socketId roomId duration sender
  | ev_video_call_status socketId roomId status sender =>
      on_video_call_status socketId roomId status sender
  | ev_disconnect socketId => disconnect socketId
  end.

(** The single event loop: events are handled one at a time. *)
Definition event_loop (events : list Event) : M unit := forEach events handle.

(** ** Further definitions *)


(** ** The chat window of the front-end *)

(** [Array.prototype.sort(compareFn)], a stable sort: an element moves
    in front of another one only when [compareFn] puts it strictly
    before. *)
Fixpoint Array_sort_insert {A} (compareFn : A → A → Z) (x : A) (l : list A) : list A :=
  match l with
  | [] => [x]
  | y :: l' =>
      if bool_decide (0 < compareFn x y) then y :: Array_sort_insert compareFn x l'
      else x :: l
  end.

Definition Array_sort {A} (compareFn : A → A → Z) (l : list A) : list A :=
  foldr (Array_sort_insert compareFn) [] l.

(** [String.prototype.trim] on ASCII strings, whose white space is tab,
    line feed, vertical tab, form feed, carriage return and space. *)
Definition is_space (c : ascii) : bool :=
  let n := N_of_ascii c in
  ((9 <=? n) && (n <=? 13) || (n =? 32))%N.

Fixpoint trimStart (s : string) : string :=
  match s with
  | EmptyString => EmptyString
  | String c s' => if is_space c then trimStart s' else s
  end.

Fixpoint trimEnd (s : string) : string :=
  match s with
  | EmptyString => EmptyString
  | String c s' =>
      match trimEnd s' with
      | EmptyString => if is_space c then EmptyString else String c EmptyString
      | rest => String c rest
      end
  end.

Definition trim (s : string) : string := trimEnd (trimStart s).

Module Chat.

(** [(a, b) => new Date(a.timestamp).getTime() - new Date(b.timestamp).getTime()]. *)
Definition by_time (a b : ChatMessage.t) : Z :=
  ChatMessage.timestamp a - ChatMessage.timestamp b.

(** [handleHistory]: the history replaces the messages, sorted. *)
Definition handleHistory (history : list ChatMessage.t)
    (prev : list ChatMessage.t) : list ChatMessage.t :=
  Array_sort by_time history.

(** [handleMessage]: the updater given to [setMessages]; a message whose
    id is already shown is skipped. *)
Definition handleMessage (message : ChatMessage.t)
    (prev : list ChatMessage.t) : list ChatMessage.t :=
  if existsb (λ m, bool_decide (ChatMessage.id m = ChatMessage.id message)) prev
  then prev
  else Array_sort by_time (prev ++ [message]).

(** What the component sends to the server. *)
Inductive Emitted :=
| emit_typing_stop (roomId userAddress : string)
| emit_chat_message (roomId message sender : string) (timestamp : Z).

(** The part of the component that [sendMessage] reads: the wallet
    address ([useAccount]), the other party, the socket ([None] before
    [useSocket] has created it, else whether it is connected), and the
    React state. *)
Record Window := mkWindow {
  address : option string;
  otherUser : string;
  socket_connected : option bool;
  messages : list ChatMessage.t;
  inputMessage : string;
  isTyping : bool
}.

(** [address && otherUser ? createRoomId(address, otherUser) : ''] *)
Definition roomId (w : Window) : string :=
  match address w with
  | Some a =>
      if bool_decide (a ≠ "") && bool_decide (otherUser w ≠ "")
      then createRoomId a (otherUser w) else ""
  | None => ""
  end.

(** [sendMessage]; [clock] is read by [new Date().toISOString()] and
    [clock'] by [Date.now()] for the temporary id. The result is the new
    state and what was emitted; nothing is emitted when a guard
    returns. *)
Definition sendMessage (clock clock' : Z) (w : Window) : Window * list Emitted :=
  match socket_connected w, address w with
  | Some connected, Some a =>
      if bool_decide (a = "") || bool_decide (trim (inputMessage w) = "")
         || bool_decide (roomId w = "")
      then (w, [])
      else if negb connected then (w, [])
      else
        let messageText := trim (inputMessage w) in
        let stop := if isTyping w
                    then [emit_typing_stop (roomId w) (JS.toLowerCase a)] else [] in
        let tempMessage :=
          ChatMessage.mk ("temp-" +:+ JS.Number_toString clock')
                         messageText (JS.toLowerCase a) clock "text" None in
        (mkWindow (address w) (otherUser w) (socket_connected w)
                  (Array_sort by_time (messages w ++ [tempMessage]))
                  "" false,
         stop ++ [emit_chat_message (roomId w) messageText (JS.toLowerCase a) clock])
  | _, _ => (w, [])
  end.

(** The server event an emission becomes once the transport has
    delivered it from socket [socketId]. *)
Definition delivered (env : Env) (socketId : string) (e : Emitted) : Event :=
  match e with
  | emit_typing_stop roomId userAddress =>
      ev_typing_stop socketId roomId userAddress
  | emit_chat_message roomId message sender timestamp =>
      ev_chat_message env socketId (Some roomId) (Some message) (Some sender)
                      (Some timestamp) None
  end.

End Chat.

(** ** The conversations of a user *)

(** The strings of ASCII letters and digits, as wallet addresses are. *)
Definition is_alphanumeric (c : ascii) : bool :=
  JS.is_upper c || JS.is_lower c
  || ((48 <=? N_of_ascii c) && (N_of_ascii c <=? 57))%N.

Fixpoint alphanumeric (s : string) : bool :=
  match s with
  | EmptyString => true
  | String c s' => is_alphanumeric c && alphanumeric s'
  end.

(** [{ field: { $regex: pattern } }] for a pattern of letters and
    digits: such a pattern has no operator of regular expressions, and
    the test is whether it occurs somewhere in the field. *)
Fixpoint regex_test (pattern s : string) : bool :=
  String.prefix pattern s
  || match s with
     | EmptyString => false
     | String _ s' => regex_test pattern s'
     end.

Module Conversation.

Record t := mk {
  roomId : string;
  otherUser : string;
  lastMessage : ChatMessage.t;
  lastUpdated : Z;
  messageCount : nat;
}.

End Conversation.

(** The filter
    [{ $or: [{ sender: user }, { roomId: { $regex: user } }] }]. *)
Definition participant (user : string) (d : Doc) : Prop :=
  ChatMessage.sender (doc_fields d) = user ∨ regex_test user (doc_roomId d) = true.

#[global] Instance participant_dec user d : Decision (participant user d).
Proof. unfold participant. apply _. Defined.

(** [distinct("roomId", filter)]: the room of every matching document,
    once. *)
Definition distinct_roomId (user : string) (docs : list Doc) : list string :=
  remove_dups (doc_roomId <$> filter (participant user) docs).

(** The order [sort: { timestamp: -1 }] asks the store for. *)
Definition by_timestamp_desc (d1 d2 : Doc) : Prop :=
  ChatMessage.timestamp (doc_fields d2) ≤ ChatMessage.timestamp (doc_fields d1).

#[global] Instance by_timestamp_desc_dec : RelDecision by_timestamp_desc.
Proof. intros d1 d2. unfold by_timestamp_desc. apply _. Defined.

(** [findOne({ roomId }, { sort: { timestamp: -1 } })]. *)
Definition findOne_latest (roomId : string) (docs : list Doc) : option Doc :=
  head (merge_sort by_timestamp_desc (filter (λ d, doc_roomId d = roomId) docs)).

(** [countDocuments({ roomId })]. *)
Definition countDocuments (roomId : string) (docs : list Doc) : nat :=
  length (filter (λ d, doc_roomId d = roomId) docs).

(** One turn of the loop over the rooms: [None] where the loop continues
    without pushing a conversation. *)
Definition conversation_of (userAddress : string) (docs : list Doc)
    (roomId : string) : option Conversation.t :=
  match JS.split "_" roomId with
  | user1 :: user2 :: _ =>
      if bool_decide (user1 = "") || bool_decide (user2 = "") then None
      else
        let otherUser :=
          if decide (JS.toLowerCase user1 = JS.toLowerCase userAddress)
          then user2 else user1 in
        match findOne_latest roomId docs with
        | Some lastMessage =>
            Some (Conversation.mk roomId otherUser (doc_fields lastMessage)
                    (ChatMessage.timestamp (doc_fields lastMessage))
                    (countDocuments roomId docs))
        | None => None
        end
  | _ => None
  end.

(** [(a, b) => new Date(b.lastUpdated) - new Date(a.lastUpdated)]. *)
Definition by_lastUpdated (a b : Conversation.t) : Z :=
  Conversation.lastUpdated b - Conversation.lastUpdated a.

(** The order of the list [getUserConversationsFromDB] returns. *)
Definition later_first (a b : Conversation.t) : Prop :=
  Conversation.lastUpdated b ≤ Conversation.lastUpdated a.

(** [getUserConversationsFromDB]: the empty list without a collection or
    when a query fails. *)
Definition getUserConversationsFromDB (env : Env) (userAddress : string)
    : M (list Conversation.t) :=
  st ← get;
  match chatMessagesCollection st with
  | None => mret []
  | Some docs =>
      if store_ok env then
        let rooms := distinct_roomId (JS.toLowerCase userAddress) docs in
        let conversations := omap (conversation_of userAddress docs) rooms in
        mret (Array_sort by_lastUpdated conversations)
      else
        console_error "[Chat] Failed to get conversations from MongoDB:" ;;
        mret []
  end.

(** ** The listings API *)

Module Listings.

(** The value of [_id]: the driver gives a new document an [ObjectId],
    printed by [toString] as its hexadecimal text; a document written by
    other means may carry a string. An [ObjectId] and a string are
    different values, whatever the text. *)
Inductive Id :=
| ObjectId (hex : string)
| StringId (s : string).

#[global] Instance Id_eq_dec : EqDecision Id.
Proof. solve_decision. Defined.

Definition Id_toString (i : Id) : string :=
  match i with
  | ObjectId hex => hex
  | StringId s => s
  end.

(** An instant in milliseconds, held as a [Date] or as the text
    [toISOString] prints for it. *)
Inductive Time :=
| Date (ms : Z)
| ISOString (ms : Z).

(** The fields a client sends and a document holds; [None] is a field
    that is missing or [null], and for [skills] also a value that is not
    an array. Rates are whole numbers. *)
Record Fields := mkFields {
  title : option string;
  description : option string;
  category : option string;
  ratePerHour : option Z;
  contactMethod : option string;
  skills : option (list string);
  owner : option string;
}.

Record Document := mkDocument {
  _id : Id;
  cid : option string;
  fields : Fields;
  createdAt : option Z;
  timestamp : option Z;
}.

(** [x || d] for a string and for a number. *)
Definition or_string (x : option string) (d : string) : string :=
  match x with
  | Some s => if bool_decide (s = "") then d else s
  | None => d
  end.

Definition or_number (x : option Z) (d : Z) : Z :=
  match x with
  | Some n => if bool_decide (n = 0) then d else n
  | None => d
  end.

(** [Array.isArray(x) ? x : []]. *)
Definition array_or_empty (x : option (list string)) : list string :=
  default [] x.

(** An element of the answer of [GET /api/listings]. *)
Record Listing := mkListing {
  l_cid : string;
  l_title : string;
  l_description : string;
  l_category : string;
  l_ratePerHour : Z;
  l_contactMethod : string;
  l_skills : list string;
  l_createdAt : Time;
  l_owner : string;
}.

(** The object [saveListingToDB] returns. *)
Record Saved := mkSaved {
  s_title : string;
  s_description : string;
  s_category : string;
  s_ratePerHour : Z;
  s_contactMethod : string;
  s_skills : list string;
  s_owner : string;
  s_createdAt : Time;
  s_timestamp : Time;
  s_id : Id;
  s_cid : string;
}.

(** What a request depends on besides the store: the clock, the
    identifier the driver draws for an inserted document, and whether
    the store answers. *)
Record Env := mkEnv {
  now : Z;
  insertedId : string;
  store_ok : bool;
}.

(** [listingsCollection]: [None] while the database is not connected. *)
Definition Store := option (list Document).

Definition Log := list (Level * string).

(** The order [sort({ createdAt: -1 })] asks for; a document without the
    field sorts below every date. *)
Definition created_le (a b : option Z) : Prop :=
  match a, b with
  | None, _ => True
  | Some _, None => False
  | Some x, Some y => x ≤ y
  end.

Definition by_createdAt_desc (d1 d2 : Document) : Prop :=
  created_le (createdAt d2) (createdAt d1).

#[global] Instance by_createdAt_desc_dec : RelDecision by_createdAt_desc.
Proof.
  intros d1 d2. unfold by_createdAt_desc, created_le.
  destruct (createdAt d2), (createdAt d1); apply _.
Defined.

(** The callback of [listings.map] in [getAllListingsFromDB]. *)
Definition view (env : Env) (listing : Document) : Listing :=
  mkListing
    (or_string (cid listing) (Id_toString (_id listing)))
    (or_string (title (fields listing)) "Untitled Service")
    (or_string (description (fields listing)) "")
    (or_string (category (fields listing)) "")
    (or_number (ratePerHour (fields listing)) 1)
    (or_string (contactMethod (fields listing)) "")
    (array_or_empty (skills (fields listing)))
    (match createdAt listing, timestamp listing with
     | Some t, _ => Date t
     | None, Some t => ISOString t
     | None, None => ISOString (now env)
     end)
    (or_string (owner (fields listing)) "unknown").

Definition getAllListingsFromDB (env : Env) (store : Store) : list Listing * Log :=
  match store with
  | None => ([], [(warn, "[Listings] MongoDB not connected, returning empty array")])
  | Some docs =>
      if store_ok env then
        (view env <$> merge_sort by_createdAt_desc docs, [])
      else
        ([], [(error, "[Listings] Failed to fetch from MongoDB:")])
  end.

(** [saveListingToDB]: [None] where it throws. The document is inserted
    before [_id] and [cid] are set on the object, so the stored document
    has the drawn [_id] and no [cid] field. *)
Definition saveListingToDB (env : Env) (listingData : Fields) (store : Store)
    : option Saved * Store * Log :=
  match store with
  | None => (None, store, [])
  | Some docs =>
      let title := or_string (title listingData) "Untitled Service" in
      let description := or_string (description listingData) "" in
      let category := or_string (category listingData) "" in
      let ratePerHour := or_number (ratePerHour listingData) 1 in
      let contactMethod := or_string (contactMethod listingData) "" in
      let skills := array_or_empty (skills listingData) in
      let owner := or_string (owner listingData) "unknown" in
      if store_ok env then
        let document :=
          mkDocument (ObjectId (insertedId env)) None
            (mkFields (Some title) (Some description) (Some category)
                      (Some ratePerHour) (Some contactMethod) (Some skills)
                      (Some owner))
            (Some (now env)) (Some (now env)) in
        (Some (mkSaved title description category ratePerHour contactMethod
                       skills owner (Date (now env)) (ISOString (now env))
                       (ObjectId (insertedId env)) (insertedId env)),
         Some (docs ++ [document]), [])
      else
        (None, store, [(error, "[Listings] Failed to save to MongoDB:")])
  end.

(** The answers of the handlers; the text of a caught exception, which
    the 500 answers repeat in [details], is left out. *)
Inductive Json :=
| listings_json (listings : list Listing)
| created_json (cid : string) (listing : Saved)
| success_json (message : string)
| error_json (error : string).

Record Response := mkResponse {
  status : nat;
  body : Json;
}.

(** [app.get("/api/listings")]; [getAllListingsFromDB] never throws, so
    the handler always answers 200. *)
Definition get_listings (env : Env) (store : Store) : Response * Store * Log :=
  let '(listings, log) := getAllListingsFromDB env store in
  (mkResponse 200 (listings_json listings), store, log).

(** The destructuring defaults of [app.post("/api/listings")]: they
    replace a missing field only. *)
Definition with_defaults (body : Fields) : Fields :=
  mkFields
    (Some (default "Untitled Service" (title body)))
    (Some (default "" (description body)))
    (Some (default "" (category body)))
    (Some (default 1 (ratePerHour body)))
    (Some (default "" (contactMethod body)))
    (Some (default [] (skills body)))
    (Some (default "unknown" (owner body))).

(** [app.post("/api/listings")]. *)
Definition post_listing (env : Env) (body : Fields) (store : Store)
    : Response * Store * Log :=
  match store with
  | None => (mkResponse 500 (error_json "MongoDB not connected"), store, [])
  | Some _ =>
      match saveListingToDB env (with_defaults body) store with
      | (Some savedListing, store', log) =>
          (mkResponse 200 (created_json (s_cid savedListing) savedListing),
           store', log)
      | (None, store', log) =>
          (mkResponse 500 (error_json "Failed to create listing"), store',
           log ++ [(error, "[Listings] Failed to create listing:")])
      end
  end.

(** The filter [{ $or: [{ cid: cid }, { _id: cid }] }], where [cid] is
    the string of the route. *)
Definition selected (cid : string) (d : Document) : Prop :=
  Listings.cid d = Some cid ∨ _id d = StringId cid.

#[global] Instance selected_dec cid d : Decision (selected cid d).
Proof. unfold selected. apply _. Defined.

(** [findOne(filter)] and [deleteOne(filter)]: the first match. *)
Fixpoint findOne (cid : string) (docs : list Document) : option Document :=
  match docs with
  | [] => None
  | d :: docs' => if decide (selected cid d) then Some d else findOne cid docs'
  end.

Fixpoint deleteOne (cid : string) (docs : list Document) : list Document :=
  match docs with
  | [] => []
  | d :: docs' => if decide (selected cid d) then docs' else d :: deleteOne cid docs'
  end.

(** The ownership test of the handler: it refuses only when the request
    names an owner, the listing has a known one, and the two differ. *)
Definition refused (owner : option string) (listing : Document) : bool :=
  match owner, Listings.owner (fields listing) with
  | Some o, Some lo =>
      negb (bool_decide (o = "")) && negb (bool_decide (lo = ""))
      && negb (bool_decide (lo = "unknown"))
      && negb (bool_decide (JS.toLowerCase lo = JS.toLowerCase o))
  | _, _ => false
  end.

(** [app.delete("/api/listings/:cid")]; [owner] is the field of the JSON
    body of the request, [None] when the body has no such field. *)
Definition delete_listing (env : Env) (cid : string) (owner : option string)
    (store : Store) : Response * Store * Log :=
  match store with
  | None => (mkResponse 500 (error_json "MongoDB not connected"), store, [])
  | Some docs =>
      if store_ok env then
        match findOne cid docs with
        | None => (mkResponse 404 (error_json "Listing not found"), store, [])
        | Some listing =>
            if refused owner listing then
              (mkResponse 403 (error_json "You can only delete your own listings"),
               store, [])
            else
              (mkResponse 200 (success_json "Listing deleted"),
               Some (deleteOne cid docs), [])
        end
      else
        (mkResponse 500 (error_json "Failed to delete listing"), store,
         [(error, "[Listings] Delete failed:")])
  end.

Inductive Request :=
| GET_listings
| POST_listings (body : Fields)
| DELETE_listings (cid : string) (owner : option string).

Definition serve (env : Env) (request : Request) (store : Store)
    : Response * Store * Log :=
  match request with
  | GET_listings => get_listings env store
  | POST_listings body => post_listing env body store
  | DELETE_listings cid owner => delete_listing env cid owner store
  end.

(** The store after a sequence of requests, each with its own
    environment. *)
Definition serve_all (requests : list (Env * Request)) (store : Store) : Store :=
  foldl (λ store r, (serve r.1 r.2 store).1.2) store requests.

(** The fields of a created listing that [GET /api/listings] shows. *)
Definition listed (s : Saved) : Listing :=
  mkListing (s_cid s) (s_title s) (s_description s) (s_category s)
            (s_ratePerHour s) (s_contactMethod s) (s_skills s)
            (s_createdAt s) (s_owner s).

(** The order of the answer of [GET /api/listings]: dated listings
    first, latest first. *)
Definition newest_first (a b : Listing) : Prop :=
  match l_createdAt a, l_createdAt b with
  | Date x, Date y => y ≤ x
  | Date _, ISOString _ => True
  | ISOString _, Date _ => False
  | ISOString _, ISOString _ => True
  end.

(** A document as [saveListingToDB] stores it. *)
Definition created_by_api (d : Document) : Prop :=
  cid d = None ∧ ∃ hex, _id d = ObjectId hex.

End Listings.

(** ** The escrow contract *)

(** [struct Escrow]. Addresses and amounts are integers; a field never
    written reads as zero or [false]. *)
Record Escrow := mkEscrow {
  requester : Z;
  provider : Z;
  amount : Z;
  requesterConfirmed : bool;
  providerConfirmed : bool;
  active : bool
}.

(** The contract storage: [nextEscrowId] and the [escrows] mapping. *)
Record Storage := mkStorage {
  nextEscrowId : Z;
  escrows : gmap Z Escrow
}.

(** [escrows[escrowId]]: a key never written reads as the zero struct. *)
Definition escrow_at (s : Storage) (escrowId : Z) : Escrow :=
  default (mkEscrow 0 0 0 false false false) (escrows s !! escrowId).

(** The calls made to the token: [transferFrom(from, address(this), amount)]
    and [transfer(to, amount)]. *)
Inductive TokenCall :=
| transferFrom (from amount : Z)
| transfer (to amount : Z).

(** The events of the contract. *)
Inductive Log :=
| EscrowCreated (escrowId requester provider amount : Z)
| EscrowCancelled (escrowId : Z)
| Confirmed (escrowId user : Z)
| Released (escrowId provider amount : Z).

(** What a transaction that does not revert leaves: the new storage, the
    token calls it made, its events, and the value it returned. *)
Record Receipt := mkReceipt {
  post : Storage;
  calls : list TokenCall;
  logs : list Log;
  returnValue : option Z
}.

Definition uint256_max : Z := 2 ^ 256 - 1.

(** The constructor: [nextEscrowId = 1]. *)
Definition constructor : Storage := mkStorage 1 ∅.

(** [createEscrow(provider, amount)] called by [sender]; [token_ok] is
    the answer of the token to the one call the transaction makes (a
    token that reverts or answers [false] reverts the transaction).
    [None] is a revert. *)
Definition createEscrow (sender : Z) (token_ok : bool) (provider amount : Z)
    (s : Storage) : option Receipt :=
  if negb (bool_decide (provider ≠ 0) && bool_decide (provider ≠ sender)) then None
  else if negb (bool_decide (0 < amount)) then None
  else if negb token_ok then None
  else if bool_decide (nextEscrowId s = uint256_max) then None
  else
    let escrowId := nextEscrowId s in
    Some (mkReceipt
            (mkStorage (nextEscrowId s + 1)
               (<[escrowId := mkEscrow sender provider amount false false true]>
                  (escrows s)))
            [transferFrom sender amount]
            [EscrowCreated escrowId sender provider amount]
            (Some escrowId)).

(** [_release(escrowId)], on the storage in which [confirm] has set its
    flag. *)
Definition release (token_ok : bool) (escrowId : Z) (s : Storage)
    : option (Storage * list TokenCall * list Log) :=
  let e := escrow_at s escrowId in
  let e' := mkEscrow (requester e) (provider e) (amount e)
                     (requesterConfirmed e) (providerConfirmed e) false in
  if negb token_ok then None
  else Some (mkStorage (nextEscrowId s) (<[escrowId := e']> (escrows s)),
             [transfer (provider e) (amount e)],
             [Released escrowId (provider e) (amount e)]).

(** [confirm(escrowId)]. *)
Definition confirm (sender : Z) (token_ok : bool) (escrowId : Z)
    (s : Storage) : option Receipt :=
  let e := escrow_at s escrowId in
  if negb (active e) then None
  else if negb (bool_decide (sender = requester e) || bool_decide (sender = provider e))
  then None
  else
    let e1 :=
      if bool_decide (sender = requester e)
      then mkEscrow (requester e) (provider e) (amount e) true
                    (providerConfirmed e) (active e)
      else mkEscrow (requester e) (provider e) (amount e)
                    (requesterConfirmed e) true (active e) in
    let s1 := mkStorage (nextEscrowId s) (<[escrowId := e1]> (escrows s)) in
    if requesterConfirmed e1 && providerConfirmed e1 then
      match release token_ok escrowId s1 with
      | Some (s2, token_calls, released) =>
          Some (mkReceipt s2 token_calls (Confirmed escrowId sender :: released) None)
      | None => None
      end
    else Some (mkReceipt s1 [] [Confirmed escrowId sender] None).

(** [cancel(escrowId)]. *)
Definition cancel (sender : Z) (token_ok : bool) (escrowId : Z)
    (s : Storage) : option Receipt :=
  let e := escrow_at s escrowId in
  if negb (active e) then None
  else if negb (bool_decide (sender = requester e)) then None
  else if providerConfirmed e then None
  else if negb token_ok then None
  else
    let e' := mkEscrow (requester e) (provider e) (amount e)
                       (requesterConfirmed e) (providerConfirmed e) false in
    Some (mkReceipt (mkStorage (nextEscrowId s) (<[escrowId := e']> (escrows s)))
                    [transfer (requester e) (amount e)]
                    [EscrowCancelled escrowId]
                    None).

(** [getEscrow(escrowId)]. *)
Definition getEscrow (escrowId : Z) (s : Storage)
    : Z * Z * Z * bool * bool * bool :=
  let e := escrow_at s escrowId in
  (requester e, provider e, amount e,
   requesterConfirmed e, providerConfirmed e, active e).

(** A transaction sent to the contract. *)
Inductive Call :=
| call_createEscrow (sender : Z) (token_ok : bool) (provider amount : Z)
| call_confirm (sender : Z) (token_ok : bool) (escrowId : Z)
| call_cancel (sender : Z) (token_ok : bool) (escrowId : Z).

Definition transact (c : Call) (s : Storage) : option Receipt :=
  match c with
  | call_createEscrow sender token_ok provider amount =>
      createEscrow sender token_ok provider amount s
  | call_confirm sender token_ok escrowId => confirm sender token_ok escrowId s
  | call_cancel sender token_ok escrowId => cancel sender token_ok escrowId s
  end.

(** A chain of transactions: a reverted one leaves the storage and makes
    no token call. The result is the final storage with all the token
    calls made, oldest first. *)
Fixpoint chain (cs : list Call) (s : Storage) : Storage * list TokenCall :=
  match cs with
  | [] => (s, [])
  | c :: cs' =>
      match transact c s with
      | Some r => let '(s', later) := chain cs' (post r) in (s', calls r ++ later)
      | None => chain cs' s
      end
  end.

(** The tokens the contract holds according to the calls it made. *)
Definition held (token_calls : list TokenCall) : Z :=
  foldr (λ c acc, match c with
                  | transferFrom _ a => a + acc
                  | transfer _ a => acc - a
                  end) 0 token_calls.

(** The tokens owed to the parties of the active escrows. *)
Definition locked (s : Storage) : Z :=
  map_fold (λ _ e acc, (if active e then amount e else 0) + acc) 0 (escrows s).

(** What the contract keeps true of every escrow it has stored, with
    [n] the value of [nextEscrowId]: ids are below [n], the amount is
    positive, the provider is neither the zero address nor the requester,
    and an escrow confirmed by both sides is no longer active. *)
Definition sane (n escrowId : Z) (e : Escrow) : Prop :=
  1 ≤ escrowId < n
  ∧ 0 < amount e
  ∧ provider e ≠ 0
  ∧ provider e ≠ requester e
  ∧ (requesterConfirmed e && providerConfirmed e && active e = false).

Definition well_formed (s : Storage) : Prop :=
  1 ≤ nextEscrowId s ∧ map_Forall (sane (nextEscrowId s)) (escrows s).


(** * Properties *)

(** ** The room identifier *)

Example createRoomId_example :
  createRoomId "0xBEEF" "0xabc1" = "0xabc1_0xbeef".
Proof. reflexivity. Qed.

Example recase_example :
  JS.recase [false; false; true; true; false; true] "0xabCd" = "0xABCD".
Proof. reflexivity. Qed.

(** *** Lemmas on the string primitives *)





Lemma lower_char_idemp (c : ascii) :
  JS.lower_char (JS.lower_char c) = JS.lower_char c.
Proof. destruct c as [[] [] [] [] [] [] [] []]; reflexivity. Qed.

Lemma toLowerCase_idemp (s : string) :
  JS.toLowerCase (JS.toLowerCase s) = JS.toLowerCase s.
Proof.
  induction s as [|c s IH]; simpl; [reflexivity|].
  by rewrite IH, lower_char_idemp.
Qed.

(** Sorting a pair: the smaller string first. *)
Lemma sort_pair (x y : string) :
  JS.sort [x; y] = if String.leb x y then [x; y] else [y; x].
Proof. reflexivity. Qed.

Lemma createRoomId_unfold (a b : string) :
  createRoomId a b =
    let x := JS.toLowerCase a in
    let y := JS.toLowerCase b in
    if String.leb x y then x +:+ "_" +:+ y else y +:+ "_" +:+ x.
Proof.
  unfold createRoomId. rewrite sort_pair. simpl.
  by destruct (String.leb _ _).
Qed.



(** ** Lemmas on the runs *)

(** The three observations of a run follow its structure. *)
Section RunLaws.
Context {A B : Type}.
Implicit Types (m : M A) (k : A → M B) (st : Server).

Lemma exec_bind m k st :
  exec (m ≫= k) st = exec (k (result m st)) (exec m st).
Proof. reflexivity. Qed.

Lemma effects_bind m k st :
  effects (m ≫= k) st = effects m st ++ effects (k (result m st)) (exec m st).
Proof. reflexivity. Qed.

Lemma result_bind m k st :
  result (m ≫= k) st = result (k (result m st)) (exec m st).
Proof. reflexivity. Qed.

Lemma exec_ret (a : A) st : exec (mret a) st = st.
Proof. reflexivity. Qed.

Lemma effects_ret (a : A) st : effects (mret a) st = [].
Proof. reflexivity. Qed.

Lemma result_ret (a : A) st : result (mret a) st = a.
Proof. reflexivity. Qed.
End RunLaws.

Lemma exec_get st : exec get st = st.
Proof. reflexivity. Qed.
Lemma effects_get st : effects get st = [].
Proof. reflexivity. Qed.
Lemma result_get st : result get st = st.
Proof. reflexivity. Qed.
Lemma exec_modify f st : exec (modify f) st = f st.
Proof. reflexivity. Qed.
Lemma effects_modify f st : effects (modify f) st = [].
Proof. reflexivity. Qed.
Lemma exec_tell e st : exec (tell e) st = st.
Proof. reflexivity. Qed.
Lemma effects_tell e st : effects (tell e) st = [e].
Proof. reflexivity. Qed.
Lemma exec_skip st : exec skip st = st.
Proof. reflexivity. Qed.
Lemma effects_skip st : effects skip st = [].
Proof. reflexivity. Qed.
Lemma exec_console_warn line st : exec (console_warn line) st = st.
Proof. reflexivity. Qed.
Lemma effects_console_warn line st :
  effects (console_warn line) st = [Console warn line].
Proof. reflexivity. Qed.
Lemma exec_console_error line st : exec (console_error line) st = st.
Proof. reflexivity. Qed.
Lemma effects_console_error line st :
  effects (console_error line) st = [Console error line].
Proof. reflexivity. Qed.
Lemma exec_io_to_emit roomId ev st : exec (io_to_emit roomId ev) st = st.
Proof. reflexivity. Qed.
Lemma effects_io_to_emit roomId ev st :
  effects (io_to_emit roomId ev) st
  = [Emit (to_room roomId) (room_members roomId st) ev].
Proof. reflexivity. Qed.
Lemma exec_socket_to_emit socketId roomId ev st :
  exec (socket_to_emit socketId roomId ev) st = st.
Proof. reflexivity. Qed.
Lemma effects_socket_to_emit socketId roomId ev st :
  effects (socket_to_emit socketId roomId ev) st
  = [Emit (to_room_except roomId socketId)
          (room_members roomId st ∖ {[socketId]}) ev].
Proof. reflexivity. Qed.
Lemma exec_socket_emit socketId ev st : exec (socket_emit socketId ev) st = st.
Proof. reflexivity. Qed.
Lemma effects_socket_emit socketId ev st :
  effects (socket_emit socketId ev) st
  = [Emit (to_socket socketId)
          (if decide (socketId ∈ dom (sockets st)) then {[socketId]} else ∅) ev].
Proof. reflexivity. Qed.

Create Rewrite HintDb run.
#[global] Hint Rewrite @exec_bind @effects_bind @result_bind
  @exec_ret @effects_ret @result_ret
  exec_get effects_get result_get exec_modify effects_modify
  exec_tell effects_tell exec_skip effects_skip
  exec_console_warn effects_console_warn
  exec_console_error effects_console_error
  exec_io_to_emit effects_io_to_emit
  exec_socket_to_emit effects_socket_to_emit
  exec_socket_emit effects_socket_emit
  app_nil_r app_nil_l : run.

#[global] Opaque exec effects result.

Ltac run := autorewrite with run.

Lemma exec_cache_push (roomId : string) (m : ChatMessage.t) (st : Server) :
  exec (cache_push roomId m) st
  = with_chatRoomsCache <[roomId := cached roomId st ++ [m]]> st.
Proof.
  unfold cache_push, cached. run.
  case_decide as Hl; run; unfold with_chatRoomsCache; simpl.
  - rewrite Hl. simpl. by rewrite alter_insert_eq.
  - destruct (chatRoomsCache st !! roomId) as [ms|] eqn:Hms; [|done].
    simpl. by rewrite (alter_alt_Some _ _ _ ms).
Qed.

Lemma effects_cache_push (roomId : string) (m : ChatMessage.t) (st : Server) :
  effects (cache_push roomId m) st = [].
Proof. unfold cache_push. run. by case_decide; run. Qed.

#[global] Hint Rewrite exec_cache_push effects_cache_push : run.

Lemma cached_push (roomId : string) (m : ChatMessage.t) (st : Server) :
  cached roomId (with_chatRoomsCache <[roomId := cached roomId st ++ [m]]> st)
  = cached roomId st ++ [m].
Proof. unfold cached at 1. simpl. by rewrite lookup_insert_eq. Qed.

(** The run of [saveChatMessageToDB], by cases on the store. *)
Lemma exec_saveChatMessageToDB (env : Env) (roomId : string)
    (m : ChatMessage.t) (st : Server) :
  exec (saveChatMessageToDB env roomId m) st =
    match chatMessagesCollection st with
    | Some docs =>
        if store_ok env
        then with_collection (λ _, Some (docs ++ [mkDoc roomId m])) st
        else st
    | None => st
    end.
Proof.
  unfold saveChatMessageToDB. run.
  destruct (chatMessagesCollection st); [destruct (store_ok env)|]; by run.
Qed.

Lemma effects_saveChatMessageToDB (env : Env) (roomId : string)
    (m : ChatMessage.t) (st : Server) :
  effects (saveChatMessageToDB env roomId m) st =
    match chatMessagesCollection st with
    | Some docs =>
        if store_ok env
        then [InsertOne (mkDoc roomId m)]
        else [InsertOne (mkDoc roomId m);
              Console error "[Chat] Failed to save message to MongoDB:"]
    | None => [Console warn "[Chat] MongoDB not connected, message not persisted"]
    end.
Proof.
  unfold saveChatMessageToDB. run.
  destruct (chatMessagesCollection st); [destruct (store_ok env)|]; by run.
Qed.

(** The run of [video-call-ended] in closed form. *)
Lemma exec_on_video_call_ended (env : Env) (socketId roomId : string) (d : Z)
    (sender : option string) (st : Server) :
  let m := call_messageObj env d in
  exec (on_video_call_ended env socketId roomId d sender) st
  = exec (saveChatMessageToDB env roomId m)
         (with_chatRoomsCache <[roomId := cached roomId st ++ [m]]> st).
Proof. intros m. unfold on_video_call_ended. by run. Qed.

Lemma effects_on_video_call_ended (env : Env) (socketId roomId : string) (d : Z)
    (sender : option string) (st : Server) :
  let m := call_messageObj env d in
  effects (on_video_call_ended env socketId roomId d sender) st
  = Emit (to_room roomId) (room_members roomId st) (chat_message m)
      :: effects (saveChatMessageToDB env roomId m)
           (with_chatRoomsCache <[roomId := cached roomId st ++ [m]]> st).
Proof. intros m. unfold on_video_call_ended. by run. Qed.

(** ** Rejected events *)

(** C2: a [chat-message] sent without a payload is not rejected by the
    guard: the destructuring of the payload throws a [TypeError] before
    the guard, no warning is printed, and the exception, which nothing
    handles, ends the process, so that the server state is lost. A
    [chat-message] that has a payload in which [roomId], [sender] or
    [message] is missing or empty is rejected as the design document
    says: the server state is unchanged, no event is sent, the store is
    not called, a warning is printed and the server goes on. *)
Theorem chat_message_without_payload_throws (env : Env) (socketId : string)
    (st : Server) :
  let run := chat_message_listener env socketId None in
  result run st = thrown "TypeError"
  ∧ effects run st = []
  ∧ after_listener run st = exited 1
  ∧ ∀ payload : ChatPayload,
      let run' := chat_message_listener env socketId (Some payload) in
      if missing_field payload then
        exec run' st = st
        ∧ emitted (effects run' st) = []
        ∧ store_calls (effects run' st) = []
        ∧ effects run' st = [Console warn "[Chat] Invalid message data:"]
        ∧ after_listener run' st = running st
      else
        result run' st = returned.
Proof.
  intros run. subst run. split_and!; try reflexivity.
  intros [roomId message sender timestamp type].
  unfold missing_field, chat_message_listener, after_listener. simpl.
  run.
  destruct (JS.falsy roomId || JS.falsy sender || JS.falsy message) eqn:Hbad;
    [|reflexivity].
  assert (on_chat_message env socketId roomId message sender timestamp type
          = console_warn "[Chat] Invalid message data:") as ->.
  { unfold on_chat_message.
    destruct roomId as [r|], sender as [s|], message as [m|]; try reflexivity.
    by rewrite Hbad. }
  run. by split_and!.
Qed.

(** C9: a [join-room] whose [roomId] or [userAddress] is missing or empty
    returns before any effect: the whole server state (rooms joined,
    presence registry, cache) is unchanged and no event is sent. *)
Theorem join_room_invalid_rejected (env : Env) (socketId : string)
    (roomId userAddress : option string) (st : Server) :
  JS.falsy roomId || JS.falsy userAddress = true →
  let run := on_join_room env socketId roomId userAddress in
  exec run st = st
  ∧ emitted (effects run st) = []
  ∧ effects run st = [Console warn "[Chat] Invalid join-room request:"].
Proof.
  intros Hbad run. subst run. unfold on_join_room.
  destruct roomId as [r|], userAddress as [u|];
    try (repeat split; reflexivity).
  rewrite Hbad. repeat split; reflexivity.
Qed.

Lemma join_room_invalid_rejected_witness :
  let st := exec (connect "s1") (initial None) in
  let run := on_join_room (mkEnv 1000 "k3x" true) "s1" (Some "a_b") None in
  JS.falsy (Some "a_b") || JS.falsy None = true
  ∧ exec run st = st
  ∧ emitted (effects run st) = []
  ∧ effects run st = [Console warn "[Chat] Invalid join-room request:"].
Proof.
  split; [reflexivity|].
  apply (join_room_invalid_rejected (mkEnv 1000 "k3x" true) "s1" (Some "a_b") None).
  reflexivity.
Defined.

(** ** Call artifacts *)

Lemma cached_exec_saveChatMessageToDB env roomId roomId' m st :
  cached roomId' (exec (saveChatMessageToDB env roomId m) st) = cached roomId' st.
Proof.
  rewrite exec_saveChatMessageToDB.
  destruct (chatMessagesCollection st); [destruct (store_ok env)|]; reflexivity.
Qed.

Lemma cached_exec_on_video_call_ended env socketId roomId d sender st :
  cached roomId (exec (on_video_call_ended env socketId roomId d sender) st)
  = cached roomId st ++ [call_messageObj env d].
Proof.
  rewrite exec_on_video_call_ended. simpl.
  by rewrite cached_exec_saveChatMessageToDB, cached_push.
Qed.

(** [video-call-status] leaves the server state alone, whatever it
    carries. *)
Lemma exec_on_video_call_status socketId roomId status sender st :
  exec (on_video_call_status socketId roomId status sender) st = st.
Proof.
  unfold on_video_call_status.
  destruct roomId, status, sender; try reflexivity.
  destruct (_ || _); [reflexivity|]. run. by case_decide; run.
Qed.

Lemma effects_on_video_call_status socketId roomId status sender st :
  store_calls (effects (on_video_call_status socketId roomId status sender) st) = []
  ∧ chat_messages_sent
      (effects (on_video_call_status socketId roomId status sender) st) = [].
Proof.
  unfold on_video_call_status.
  destruct roomId, status, sender; try (split; reflexivity).
  destruct (_ || _); [split; reflexivity|]. run.
  case_decide; run; split; reflexivity.
Qed.

(** C8: the artifact recorded by [video-call-ended] for a duration of
    [d] seconds, [d] an integer with [0 <= d < 2^53], reads ["Video call ended - Duration: "] followed by
    [floor(d/60)], ["m "], [d mod 60] and ["s"] when [floor(d/60) > 0],
    and by [d mod 60] and ["s"] otherwise; for [d = 125] it reads
    ["Video call ended - Duration: 2m 5s"]. The artifact is the message
    appended to the room's cache, broadcast to the room and handed to the
    store. *)
Theorem video_call_ended_text (env : Env) (socketId roomId : string) (d : Z)
    (sender : option string) (st : Server) :
  0 ≤ d < 2 ^ 53 →
  let run := on_video_call_ended env socketId roomId d sender in
  ∃ m,
    cached roomId (exec run st) = cached roomId st ++ [m]
    ∧ Emit (to_room roomId) (room_members roomId st) (chat_message m)
        ∈ effects run st
    ∧ store_calls (effects run st)
      = match chatMessagesCollection st with
        | Some _ => [mkDoc roomId m]
        | None => []
        end
    ∧ ChatMessage.message m =
        "Video call ended - Duration: " +:+
        (if decide (0 < d `div` 60)
         then JS.Number_toString (d `div` 60) +:+ "m " +:+
              JS.Number_toString (d `mod` 60) +:+ "s"
         else JS.Number_toString (d `mod` 60) +:+ "s")
    ∧ (d = 125 → ChatMessage.message m = "Video call ended - Duration: 2m 5s").
Proof.
  intros Hd run. exists (call_messageObj env d). subst run.
  split; [apply cached_exec_on_video_call_ended|].
  split; [rewrite effects_on_video_call_ended; simpl; apply list_elem_of_here|].
  split.
  { rewrite effects_on_video_call_ended, effects_saveChatMessageToDB. simpl.
    by destruct (chatMessagesCollection st); [destruct (store_ok env)|]. }
  split.
  - simpl. unfold durationText. rewrite Z.rem_mod_nonneg by lia.
    case_bool_decide; case_decide; done.
  - intros ->. reflexivity.
Qed.

Lemma video_call_ended_text_witness :
  let st := exec (connect "s1") (initial (Some [])) in
  let run := on_video_call_ended (mkEnv 1000 "k3x" true) "s1" "a_b" 125 (Some "a") in
  0 ≤ 125 < 2 ^ 53
  ∧ ∃ m,
      cached "a_b" (exec run st) = cached "a_b" st ++ [m]
      ∧ Emit (to_room "a_b") (room_members "a_b" st) (chat_message m)
          ∈ effects run st
      ∧ store_calls (effects run st)
        = match chatMessagesCollection st with
          | Some _ => [mkDoc "a_b" m]
          | None => []
          end
      ∧ ChatMessage.message m =
          "Video call ended - Duration: " +:+
          (if decide (0 < 125 `div` 60)
           then JS.Number_toString (125 `div` 60) +:+ "m " +:+
                JS.Number_toString (125 `mod` 60) +:+ "s"
           else JS.Number_toString (125 `mod` 60) +:+ "s")
      ∧ (125 = 125 → ChatMessage.message m = "Video call ended - Duration: 2m 5s").
Proof.
  split; [lia|].
  apply (video_call_ended_text (mkEnv 1000 "k3x" true) "s1" "a_b" 125 (Some "a")).
  lia.
Defined.

(** C10: the message recorded by [video-call-ended] has sender
    ["system"] and type ["video-call"], and the handler does the same
    whatever [sender] the event carries: the event's sender appears
    nowhere on the artifact that is cached, broadcast and handed to the
    store. *)
Theorem video_call_ended_sender_system (env : Env) (socketId roomId : string)
    (d : Z) (sender : option string) (st : Server) :
  let run := on_video_call_ended env socketId roomId d sender in
  ∃ m,
    cached roomId (exec run st) = cached roomId st ++ [m]
    ∧ chat_messages_sent (effects run st) = [m]
    ∧ store_calls (effects run st)
      = match chatMessagesCollection st with
        | Some _ => [mkDoc roomId m]
        | None => []
        end
    ∧ ChatMessage.sender m = "system"
    ∧ ChatMessage.type m = "video-call"
    ∧ ∀ sender', on_video_call_ended env socketId roomId d sender' = run.
Proof.
  intros run. exists (call_messageObj env d). subst run.
  split; [apply cached_exec_on_video_call_ended|].
  rewrite effects_on_video_call_ended, effects_saveChatMessageToDB. simpl.
  repeat split.
  - by destruct (chatMessagesCollection st); [destruct (store_ok env)|].
  - by destruct (chatMessagesCollection st); [destruct (store_ok env)|].
Qed.



(** ** History *)

#[global] Instance by_timestamp_total : Total by_timestamp.
Proof. intros d1 d2. unfold by_timestamp. lia. Qed.

#[global] Instance by_timestamp_trans : Transitive by_timestamp.
Proof. intros d1 d2 d3. unfold by_timestamp. lia. Qed.

Lemma find_sorted_sorted (roomId : string) (docs : list Doc) :
  StronglySorted by_timestamp (find_sorted roomId docs).
Proof. apply StronglySorted_merge_sort; apply _. Qed.

Lemma find_sorted_perm (roomId : string) (docs : list Doc) :
  find_sorted roomId docs ≡ₚ filter (λ d, doc_roomId d = roomId) docs.
Proof. apply merge_sort_Permutation. Qed.

(** What [loadChatFromDB] answers, by cases on the store. *)
Lemma result_loadChatFromDB (env : Env) (roomId : string) (st : Server) :
  result (loadChatFromDB env roomId) st =
    match chatMessagesCollection st with
    | Some docs =>
        if store_ok env then doc_fields <$> find_sorted roomId docs else []
    | None => []
    end.
Proof.
  unfold loadChatFromDB. run.
  destruct (chatMessagesCollection st); [destruct (store_ok env)|]; by run.
Qed.

Lemma exec_loadChatFromDB (env : Env) (roomId : string) (st : Server) :
  exec (loadChatFromDB env roomId) st = st.
Proof.
  unfold loadChatFromDB. run.
  destruct (chatMessagesCollection st); [destruct (store_ok env)|]; by run.
Qed.

Lemma effects_loadChatFromDB (env : Env) (roomId : string) (st : Server) :
  effects (loadChatFromDB env roomId) st =
    match chatMessagesCollection st with
    | Some _ =>
        if store_ok env then []
        else [Console error "[Chat] Failed to load from MongoDB:"]
    | None => []
    end.
Proof.
  unfold loadChatFromDB. run.
  destruct (chatMessagesCollection st); [destruct (store_ok env)|]; by run.
Qed.

#[global] Hint Rewrite exec_loadChatFromDB : run.

Lemma loaded_sorted (env : Env) (roomId : string) (st : Server) :
  StronglySorted msg_le (result (loadChatFromDB env roomId) st).
Proof.
  rewrite result_loadChatFromDB.
  destruct (chatMessagesCollection st) as [docs|]; [|constructor].
  destruct (store_ok env); [|constructor].
  eapply StronglySorted_fmap; [|apply find_sorted_sorted]. done.
Qed.

(** The state after the synchronous part of [join-room]. *)
Lemma exec_join_room_begin env socketId roomId normalizedAddress st :
  exec (join_room_begin env socketId roomId normalizedAddress) st
  = mkServer
      (chatRoomsCache st)
      (<[normalizedAddress :=
           mkPresence
             (socketIds (default (mkPresence ∅ (now env))
                                 (onlineUsers st !! normalizedAddress))
              ∪ {[socketId]})
             (now env)]> (onlineUsers st))
      (typingUsers st)
      (chatMessagesCollection st)
      (alter (λ d, mkData (Some normalizedAddress) (data_roomId d)) socketId
         (alter (λ d, mkData (data_userAddress d) (Some roomId)) socketId
            (sockets st)))
      (alter (λ rs, if decide (roomId ∈ rs) then rs else rs ++ [roomId])
             socketId (sids st)).
Proof.
  unfold join_room_begin, socket_join, set_data_roomId, set_data_userAddress,
    mark_online. by run.
Qed.

Lemma effects_join_room_begin env socketId roomId normalizedAddress st :
  effects (join_room_begin env socketId roomId normalizedAddress) st
  = [Emit (to_room roomId)
          (room_members roomId
             (exec (join_room_begin env socketId roomId normalizedAddress) st))
          (user_status normalizedAddress online)].
Proof.
  unfold join_room_begin, socket_join, set_data_roomId, set_data_userAddress,
    mark_online. by run.
Qed.

(** After the answer of the store, [join-room] only writes the cache. *)
Lemma exec_join_room_loaded socketId roomId normalizedAddress dbMessages st :
  exec (join_room_loaded socketId roomId normalizedAddress dbMessages) st
  = with_chatRoomsCache <[roomId := dbMessages]> st.
Proof.
  unfold join_room_loaded. run.
  assert (exec
    (if bool_decide (0 < length dbMessages)%nat
     then modify (with_chatRoomsCache <[roomId:=dbMessages]>) ;;
          socket_emit socketId (chat_history dbMessages)
     else modify (with_chatRoomsCache <[roomId:=[]]>) ;;
          socket_emit socketId (chat_history [])) st
    = with_chatRoomsCache <[roomId := dbMessages]> st) as ->.
  { case_bool_decide as Hlen; run; [done|].
    destruct dbMessages; [done|]. simpl in Hlen. lia. }
  destruct (JS.split "_" roomId) as [|user1 [|user2 ?]]; run; try done.
  destruct (_ && _); by run.
Qed.

(** It sends exactly one history, the list it was given. *)
Lemma histories_join_room_loaded socketId roomId normalizedAddress dbMessages st :
  histories (effects (join_room_loaded socketId roomId normalizedAddress dbMessages) st)
  = [dbMessages].
Proof.
  unfold join_room_loaded. run. unfold histories, emitted.
  rewrite !omap_app.
  assert (omap (λ x, match x.2 with chat_history ms => Some ms | _ => None end)
            (omap (λ e, match e with Emit t r ev => Some (t, r, ev) | _ => None end)
               (effects
                  (if bool_decide (0 < length dbMessages)%nat
                   then modify (with_chatRoomsCache <[roomId:=dbMessages]>) ;;
                        socket_emit socketId (chat_history dbMessages)
                   else modify (with_chatRoomsCache <[roomId:=[]]>) ;;
                        socket_emit socketId (chat_history [])) st))
          = [dbMessages]) as ->.
  { case_bool_decide as Hlen; run; [done|].
    destruct dbMessages; [done|]. simpl in Hlen. lia. }
  destruct (JS.split "_" roomId) as [|user1 [|user2 ?]]; run; try done.
  destruct (_ && _); by run.
Qed.

(** The histories sent by [join-room]: none for a rejected request, else
    the answer of [loadChatFromDB]. *)
Lemma histories_on_join_room env socketId roomId userAddress st :
  histories (effects (on_join_room env socketId roomId userAddress) st)
  = if JS.falsy roomId || JS.falsy userAddress then []
    else [result (loadChatFromDB env (default "" roomId)) st].
Proof.
  unfold on_join_room.
  destruct roomId as [room|], userAddress as [address|]; try reflexivity.
  - destruct (_ || _); [reflexivity|]. run.
    unfold histories, emitted. rewrite !omap_app.
    fold (emitted (effects (join_room_loaded socketId room (JS.toLowerCase address)
            (result (loadChatFromDB env room)
               (exec (join_room_begin env socketId room (JS.toLowerCase address)) st)))
            (exec (join_room_begin env socketId room (JS.toLowerCase address)) st))).
    fold (histories (effects (join_room_loaded socketId room (JS.toLowerCase address)
            (result (loadChatFromDB env room)
               (exec (join_room_begin env socketId room (JS.toLowerCase address)) st)))
            (exec (join_room_begin env socketId room (JS.toLowerCase address)) st))).
    rewrite histories_join_room_loaded, effects_join_room_begin,
      effects_loadChatFromDB, !result_loadChatFromDB, exec_join_room_begin.
    simpl. by destruct (chatMessagesCollection st); [destruct (store_ok env)|].
  - simpl. by rewrite orb_true_r.
Qed.

(** C4: the history loaded for a room is in non-decreasing timestamp
    order whatever the order of the documents in the store (and is empty
    when the store is not connected or the query fails); it holds exactly
    the stored messages of the room; and the [chat-history] sent by
    [join-room] is that list, so every history sent is ordered. *)
Theorem chat_history_sorted (env : Env) (socketId : string)
    (roomId userAddress : option string) (st : Server) :
  let loaded := result (loadChatFromDB env (default "" roomId)) st in
  let sent := histories (effects (on_join_room env socketId roomId userAddress) st) in
  StronglySorted msg_le loaded
  ∧ loaded ≡ₚ
      (if store_ok env
       then doc_fields <$> filter (λ d, doc_roomId d = default "" roomId) (stored st)
       else [])
  ∧ sent = (if JS.falsy roomId || JS.falsy userAddress then [] else [loaded])
  ∧ Forall (StronglySorted msg_le) sent.
Proof.
  intros loaded sent. subst loaded sent.
  split; [apply loaded_sorted|]. split; [|split].
  - rewrite result_loadChatFromDB. unfold stored.
    destruct (chatMessagesCollection st) as [docs|]; simpl.
    + destruct (store_ok env); [|done]. by rewrite find_sorted_perm.
    + by destruct (store_ok env).
  - apply histories_on_join_room.
  - rewrite histories_on_join_room.
    destruct (_ || _); repeat constructor. apply loaded_sorted.
Qed.

(** Two stores holding the same documents in different insertion orders
    answer with the same sequence of timestamps. *)
Lemma history_timestamps_insertion_order (roomId : string) (docs docs' : list Doc) :
  docs ≡ₚ docs' →
  (ChatMessage.timestamp ∘ doc_fields) <$> find_sorted roomId docs
  = (ChatMessage.timestamp ∘ doc_fields) <$> find_sorted roomId docs'.
Proof.
  intros Hperm. apply (StronglySorted_unique Z.le).
  - eapply StronglySorted_fmap; [|apply find_sorted_sorted]. done.
  - eapply StronglySorted_fmap; [|apply find_sorted_sorted]. done.
  - by rewrite !find_sorted_perm, Hperm.
Qed.

Example history_reorders_the_store :
  let docs := [mkDoc "a_b" (ChatMessage.mk "3" "third" "a" 30 "text" None);
               mkDoc "a_c" (ChatMessage.mk "0" "elsewhere" "a" 5 "text" None);
               mkDoc "a_b" (ChatMessage.mk "1" "first" "b" 10 "text" None);
               mkDoc "a_b" (ChatMessage.mk "2" "second" "a" 20 "text" None)] in
  ChatMessage.message <$>
    result (loadChatFromDB (mkEnv 1000 "k3x" true) "a_b") (initial (Some docs))
  = ["first"; "second"; "third"].
Proof. vm_compute. reflexivity. Qed.

(** ** Delivery and the store *)

Lemma falsy_Some (s : string) : s ≠ "" → JS.falsy (Some s) = false.
Proof. intros Hs. simpl. by apply bool_decide_eq_false. Qed.

(** The effects of a valid [chat-message], in order: the typing
    cancellation when the room has a typing entry, the two warnings when
    the room is empty, the broadcast, and then what the store call
    does. *)
Lemma effects_on_chat_message (env : Env) (socketId room message sender : string)
    (timestamp : option Z) (type : option string) (st : Server) :
  room ≠ "" → sender ≠ "" → message ≠ "" →
  let m := chat_messageObj env message (JS.toLowerCase sender) timestamp type in
  effects (on_chat_message env socketId (Some room) (Some message) (Some sender)
             timestamp type) st
  = (if decide (is_Some (typingUsers st !! room))
     then [Emit (to_room room) (room_members room st)
                (typing (JS.toLowerCase sender) false)]
     else [])
    ++ (if decide (userCount room st = 0%nat)
        then [Console warn "[Chat] WARNING: Room has NO connected users! Message will not be delivered.";
              Console warn "[Chat] The other user must open the chat and join the room to receive messages."]
        else [])
    ++ [Emit (to_room room) (room_members room st) (chat_message m)]
    ++ match chatMessagesCollection st with
       | Some docs =>
           if store_ok env
           then [InsertOne (mkDoc room m)]
           else [InsertOne (mkDoc room m);
                 Console error "[Chat] Failed to save message to MongoDB:"]
       | None => [Console warn "[Chat] MongoDB not connected, message not persisted"]
       end.
Proof.
  intros Hr Hs Hm m. unfold on_chat_message.
  rewrite (falsy_Some _ Hr), (falsy_Some _ Hs), (falsy_Some _ Hm). simpl.
  fold m. run. rewrite effects_saveChatMessageToDB.
  case_decide; run; unfold userCount, room_members; simpl;
    case_decide; run; reflexivity.
Qed.

(** The store after a valid [chat-message]. *)
Lemma collection_on_chat_message (env : Env) (socketId room message sender : string)
    (timestamp : option Z) (type : option string) (st : Server) :
  room ≠ "" → sender ≠ "" → message ≠ "" →
  let m := chat_messageObj env message (JS.toLowerCase sender) timestamp type in
  chatMessagesCollection
    (exec (on_chat_message env socketId (Some room) (Some message) (Some sender)
             timestamp type) st)
  = if store_ok env
    then (λ docs, docs ++ [mkDoc room m]) <$> chatMessagesCollection st
    else chatMessagesCollection st.
Proof.
  intros Hr Hs Hm m. unfold on_chat_message.
  rewrite (falsy_Some _ Hr), (falsy_Some _ Hs), (falsy_Some _ Hm). simpl.
  fold m. run. rewrite exec_saveChatMessageToDB.
  case_decide; run; unfold userCount, room_members; simpl;
    case_decide; run; simpl;
    destruct (chatMessagesCollection st) eqn:Hc, (store_ok env); simpl;
    by rewrite ?Hc.
Qed.

(** The state after a valid [join-room], and what it sends to the
    joining socket first. *)
Lemma exec_on_join_room env socketId room user st :
  room ≠ "" → user ≠ "" →
  exec (on_join_room env socketId (Some room) (Some user)) st
  = with_chatRoomsCache
      <[room := result (loadChatFromDB env room) st]>
      (exec (join_room_begin env socketId room (JS.toLowerCase user)) st).
Proof.
  intros Hr Hu. unfold on_join_room.
  rewrite (falsy_Some _ Hr), (falsy_Some _ Hu). simpl. run.
  rewrite exec_join_room_loaded, !result_loadChatFromDB, exec_join_room_begin.
  reflexivity.
Qed.

Lemma joined_room_member socketId room (st : Server) :
  is_Some (sids st !! socketId) →
  socketId ∈ dom (filter (λ kv : string * list string, room ∈ kv.2)
                    (alter (λ rs, if decide (room ∈ rs) then rs else rs ++ [room])
                           socketId (sids st))).
Proof.
  intros [rs Hrs]. apply elem_of_dom.
  exists (if decide (room ∈ rs) then rs else rs ++ [room]).
  apply map_lookup_filter_Some. split.
  - by rewrite lookup_alter_eq, Hrs.
  - simpl. case_decide; [done|]. set_solver.
Qed.

Lemma effects_join_room_loaded_head socketId roomId normalizedAddress dbMessages st :
  ∃ rest,
    effects (join_room_loaded socketId roomId normalizedAddress dbMessages) st
    = Emit (to_socket socketId)
           (if decide (socketId ∈ dom (sockets st)) then {[socketId]} else ∅)
           (chat_history dbMessages) :: rest.
Proof.
  unfold join_room_loaded. run.
  case_bool_decide as Hlen; run; simpl; [by eexists|].
  destruct dbMessages; [by eexists|]. simpl in Hlen. lia.
Qed.

(** A valid [join-room] sends the loaded history to the joining socket. *)
Lemma on_join_room_sends_history env socketId room user st :
  room ≠ "" → user ≠ "" → is_Some (sockets st !! socketId) →
  Emit (to_socket socketId) {[socketId]}
       (chat_history (result (loadChatFromDB env room) st))
    ∈ effects (on_join_room env socketId (Some room) (Some user)) st.
Proof.
  intros Hr Hu Hconn. unfold on_join_room.
  rewrite (falsy_Some _ Hr), (falsy_Some _ Hu). simpl. run.
  destruct (effects_join_room_loaded_head socketId room (JS.toLowerCase user)
              (result (loadChatFromDB env room)
                 (exec (join_room_begin env socketId room (JS.toLowerCase user)) st))
              (exec (join_room_begin env socketId room (JS.toLowerCase user)) st))
    as [rest ->].
  rewrite !elem_of_app. right. right.
  rewrite !result_loadChatFromDB, exec_join_room_begin. simpl.
  rewrite decide_True; [apply list_elem_of_here|].
  apply elem_of_dom. by rewrite !lookup_alter_is_Some.
Qed.

(** After a valid [join-room] the socket is in the room and in the
    user's presence entry. *)
Lemma on_join_room_joins env socketId room user st :
  room ≠ "" → user ≠ "" → is_Some (sids st !! socketId) →
  let st' := exec (on_join_room env socketId (Some room) (Some user)) st in
  socketId ∈ room_members room st'
  ∧ ∃ entry, onlineUsers st' !! JS.toLowerCase user = Some entry
           ∧ socketId ∈ socketIds entry.
Proof.
  intros Hr Hu Hconn st'. subst st'.
  rewrite exec_on_join_room, exec_join_room_begin by done.
  split.
  - unfold room_members. simpl. by apply joined_room_member.
  - simpl. eexists. rewrite lookup_insert_eq. split; [done|]. simpl. set_solver.
Qed.

(** C5: a valid [chat-message] is broadcast to the members of the room
    whatever the store does: the events sent are the same for every state
    and outcome of the store, the broadcast comes before the store is
    called, and either the message is appended to the store or the store
    is left as it was and the failure is printed (a warning when the
    collection is not connected, an error when the insertion fails).
    Likewise a [join-room] whose store query fails, or that runs without a
    connected collection, still puts the socket in the room and in the
    presence registry and sends it an empty [chat-history]. *)
Theorem chat_message_delivered_whatever_the_store (env : Env)
    (socketId room message sender user : string)
    (timestamp : option Z) (type : option string) (st : Server) :
  room ≠ "" → sender ≠ "" → message ≠ "" → user ≠ "" →
  is_Some (sockets st !! socketId) → is_Some (sids st !! socketId) →
  let send env' := on_chat_message env' socketId (Some room) (Some message)
                     (Some sender) timestamp type in
  let m := chat_messageObj env message (JS.toLowerCase sender) timestamp type in
  let down := mkEnv (now env) (random env) false in
  (∃ before after,
      effects (send env) st
      = before ++ Emit (to_room room) (room_members room st) (chat_message m) :: after
      ∧ store_calls before = [])
  ∧ chat_messages_sent (effects (send env) st) = [m]
  ∧ (∀ collection ok,
       emitted (effects (send (mkEnv (now env) (random env) ok))
                        (with_collection (λ _, collection) st))
       = emitted (effects (send env) st))
  ∧ (stored (exec (send env) st) = stored st ++ [mkDoc room m]
     ∨ chatMessagesCollection (exec (send env) st) = chatMessagesCollection st
       ∧ (Console warn "[Chat] MongoDB not connected, message not persisted"
            ∈ effects (send env) st
          ∨ Console error "[Chat] Failed to save message to MongoDB:"
            ∈ effects (send env) st))
  ∧ (let join := on_join_room down socketId (Some room) (Some user) in
     socketId ∈ room_members room (exec join st)
     ∧ Emit (to_socket socketId) {[socketId]} (chat_history []) ∈ effects join st
     ∧ histories (effects join st) = [[]])
  ∧ (let join := on_join_room env socketId (Some room) (Some user) in
     let st0 := with_collection (λ _, None) st in
     socketId ∈ room_members room (exec join st0)
     ∧ Emit (to_socket socketId) {[socketId]} (chat_history []) ∈ effects join st0
     ∧ histories (effects join st0) = [[]]).
Proof.
  intros Hr Hs Hm Hu Hsock Hsids send m down. subst send down.
  split; [|split; [|split; [|split; [|split]]]].
  - rewrite effects_on_chat_message by done. fold m.
    eexists (_ ++ _), _. split.
    + rewrite <- app_assoc. reflexivity.
    + unfold store_calls. rewrite omap_app. by repeat case_decide.
  - rewrite effects_on_chat_message by done. fold m.
    unfold chat_messages_sent, emitted. rewrite !omap_app. simpl.
    repeat case_decide; simpl;
      by destruct (chatMessagesCollection st); [destruct (store_ok env)|].
  - intros collection ok.
    rewrite !effects_on_chat_message by done. simpl.
    unfold emitted. rewrite !omap_app. simpl. unfold userCount, room_members.
    simpl.
    destruct collection, ok, (chatMessagesCollection st), (store_ok env);
      reflexivity.
  - rewrite collection_on_chat_message, effects_on_chat_message by done. fold m.
    unfold stored. rewrite collection_on_chat_message by done. fold m.
    destruct (chatMessagesCollection st) as [docs|] eqn:Hc; simpl.
    + destruct (store_ok env); simpl; [by left|]. right. split; [done|].
      right. rewrite !elem_of_app. right. right. set_solver.
    + right. split; [by destruct (store_ok env)|].
      left. rewrite !elem_of_app. right. right. set_solver.
  - intros join. subst join.
    assert (result (loadChatFromDB
                      {| now := now env; random := random env; store_ok := false |}
                      room) st = []) as Hload.
    { rewrite result_loadChatFromDB. by destruct (chatMessagesCollection st). }
    split; [by apply on_join_room_joins|]. split.
    + rewrite <- Hload. by apply on_join_room_sends_history.
    + rewrite histories_on_join_room, (falsy_Some _ Hr), (falsy_Some _ Hu).
      simpl. by rewrite Hload.
  - intros join st0. subst join st0.
    assert (result (loadChatFromDB env room) (with_collection (λ _, None) st) = [])
      as Hload by by rewrite result_loadChatFromDB.
    split; [by apply on_join_room_joins|]. split.
    + rewrite <- Hload. by apply on_join_room_sends_history.
    + rewrite histories_on_join_room, (falsy_Some _ Hr), (falsy_Some _ Hu).
      simpl. by rewrite Hload.
Qed.

Lemma chat_message_delivered_whatever_the_store_witness :
  let env := mkEnv 1000 "k3x" false in
  let st := exec (connect "s1" ;; on_join_room env "s1" (Some "a_b") (Some "a"))
                 (initial (Some [])) in
  let send env' := on_chat_message env' "s1" (Some "a_b") (Some "hi")
                     (Some "A") None None in
  let m := chat_messageObj env "hi" (JS.toLowerCase "A") None None in
  let down := mkEnv (now env) (random env) false in
  ("a_b" ≠ "" ∧ "A" ≠ "" ∧ "hi" ≠ "" ∧ "a" ≠ ""
   ∧ is_Some (sockets st !! "s1") ∧ is_Some (sids st !! "s1"))
  ∧ (∃ before after,
        effects (send env) st
        = before ++ Emit (to_room "a_b") (room_members "a_b" st) (chat_message m) :: after
        ∧ store_calls before = [])
  ∧ chat_messages_sent (effects (send env) st) = [m]
  ∧ (∀ collection ok,
       emitted (effects (send (mkEnv (now env) (random env) ok))
                        (with_collection (λ _, collection) st))
       = emitted (effects (send env) st))
  ∧ (stored (exec (send env) st) = stored st ++ [mkDoc "a_b" m]
     ∨ chatMessagesCollection (exec (send env) st) = chatMessagesCollection st
       ∧ (Console warn "[Chat] MongoDB not connected, message not persisted"
            ∈ effects (send env) st
          ∨ Console error "[Chat] Failed to save message to MongoDB:"
            ∈ effects (send env) st))
  ∧ (let join := on_join_room down "s1" (Some "a_b") (Some "a") in
     "s1" ∈ room_members "a_b" (exec join st)
     ∧ Emit (to_socket "s1") {["s1"]} (chat_history []) ∈ effects join st
     ∧ histories (effects join st) = [[]])
  ∧ (let join := on_join_room env "s1" (Some "a_b") (Some "a") in
     let st0 := with_collection (λ _, None) st in
     "s1" ∈ room_members "a_b" (exec join st0)
     ∧ Emit (to_socket "s1") {["s1"]} (chat_history []) ∈ effects join st0
     ∧ histories (effects join st0) = [[]]).
Proof.
  intros env st send m down.
  assert (is_Some (sockets st !! "s1")) as Hsock by (vm_compute; by eexists).
  assert (is_Some (sids st !! "s1")) as Hsids by (vm_compute; by eexists).
  split; [by repeat split|].
  by apply (chat_message_delivered_whatever_the_store env "s1" "a_b" "hi" "A" "a"
              None None st).
Defined.

(** ** The typing map *)

Lemma typingUsers_on_typing_start socketId roomId userAddress st :
  typingUsers (exec (on_typing_start socketId roomId userAddress) st)
  = <[roomId := default ∅ (typingUsers st !! roomId) ∪ {[userAddress]}]>
      (typingUsers st).
Proof.
  unfold on_typing_start. run.
  case_decide as Hl; run; simpl.
  - rewrite Hl. simpl. by rewrite alter_insert_eq.
  - destruct (typingUsers st !! roomId) as [users|] eqn:Hu; [|done].
    simpl. by rewrite (alter_alt_Some _ _ _ users).
Qed.

Lemma typingUsers_on_typing_stop socketId roomId userAddress st :
  typingUsers (exec (on_typing_stop socketId roomId userAddress) st)
  = match typingUsers st !! roomId with
    | Some users =>
        if decide (users ∖ {[userAddress]} = ∅)
        then delete roomId (typingUsers st)
        else <[roomId := users ∖ {[userAddress]}]> (typingUsers st)
    | None => typingUsers st
    end.
Proof.
  unfold on_typing_stop. run.
  destruct (typingUsers st !! roomId) as [users|] eqn:Hu.
  - rewrite decide_True by done. run. simpl.
    rewrite lookup_alter_eq, Hu. simpl.
    destruct (decide (users ∖ {[userAddress]} = ∅)) as [He|He].
    + rewrite decide_True by by rewrite He. run. simpl.
      by rewrite delete_alter_eq.
    + rewrite decide_False by congruence. run. simpl.
      by rewrite (alter_alt_Some _ _ _ users).
  - rewrite decide_False by (by intros [? ?]). by run.
Qed.

(** [typing-start] and [typing-stop] keep the typing map free of empty
    sets. *)
Lemma typing_start_preserves socketId roomId userAddress st :
  typing_inv st → typing_inv (exec (on_typing_start socketId roomId userAddress) st).
Proof.
  unfold typing_inv. intros Hinv. rewrite typingUsers_on_typing_start.
  apply map_Forall_insert_2; [set_solver|done].
Qed.

Lemma typing_stop_preserves socketId roomId userAddress st :
  typing_inv st → typing_inv (exec (on_typing_stop socketId roomId userAddress) st).
Proof.
  unfold typing_inv. intros Hinv. rewrite typingUsers_on_typing_stop.
  destruct (typingUsers st !! roomId) as [users|]; [|done].
  case_decide.
  - by apply map_Forall_delete.
  - by apply map_Forall_insert_2.
Qed.

(** C7: the invariant is broken by [chat-message] and by [disconnect].
    With user ["a"] the only one typing in room ["a_b"], a message from
    ["a"], or the end of the connection of ["a"], empties the set and
    leaves the room's entry in the map, where [typing-stop] removes
    it. *)
Theorem typing_entry_left_empty :
  let env := mkEnv 1000 "k3x" true in
  let st := exec (connect "s1" ;;
                  on_join_room env "s1" (Some "a_b") (Some "a") ;;
                  on_typing_start "s1" "a_b" "a")
                 (initial (Some [])) in
  let message := on_chat_message env "s1" (Some "a_b") (Some "hi") (Some "a") None None in
  typing_inv st
  ∧ typingUsers (exec message st) !! "a_b" = Some ∅
  ∧ ¬ typing_inv (exec message st)
  ∧ typingUsers (exec (disconnect "s1") st) !! "a_b" = Some ∅
  ∧ ¬ typing_inv (exec (disconnect "s1") st)
  ∧ typingUsers (exec (on_typing_stop "s1" "a_b" "a") st) !! "a_b" = None
  ∧ typing_inv (exec (on_typing_stop "s1" "a_b" "a") st).
Proof.
  intros env st message.
  assert (typing_inv st) as Hinv.
  { unfold typing_inv.
    apply (bool_decide_unpack (map_Forall (λ _ users, users ≠ (∅ : gset string))
                                          (typingUsers st))).
    vm_compute. exact I. }
  assert (typingUsers (exec message st) !! "a_b" = Some ∅) as Hm
    by (vm_compute; reflexivity).
  assert (typingUsers (exec (disconnect "s1") st) !! "a_b" = Some ∅) as Hd
    by (vm_compute; reflexivity).
  split; [exact Hinv|]. split; [exact Hm|]. split.
  { intros H. by apply (map_Forall_lookup_1 _ _ _ _ H Hm). }
  split; [exact Hd|]. split.
  { intros H. by apply (map_Forall_lookup_1 _ _ _ _ H Hd). }
  split; [vm_compute; reflexivity|].
  by apply typing_stop_preserves.
Qed.

(** ** Presence *)

(** *** The registry follows the identified sockets *)

Lemma truthy_Some (s : string) : s ≠ "" → truthy (Some s) = Some s.
Proof. intros Hs. simpl. by rewrite decide_False. Qed.

Lemma exec_forEach_pure {A} (xs : list A) (body : A → M unit) (st : Server) :
  (∀ x st', exec (body x) st' = st') → exec (forEach xs body) st = st.
Proof.
  intros Hbody. induction xs as [|x xs IH]; simpl; run; [done|].
  by rewrite Hbody.
Qed.

(** Registering [socketId] under [user], as [user-online] and [join-room]
    do. *)
Lemma presence_ok_register socks registry socketId user time
    (f : SocketData → SocketData) :
  (∀ d, data_userAddress (f d) = Some user) →
  presence_ok socks registry →
  presence_ok (alter f socketId socks)
    (<[user := mkPresence
                 (socketIds (default (mkPresence ∅ time) (registry !! user))
                  ∪ {[socketId]}) time]> registry).
Proof.
  intros Hf Hok sid d u Hsid Hu.
  destruct (decide (sid = socketId)) as [->|Hne].
  - rewrite lookup_alter_eq in Hsid.
    destruct (socks !! socketId) as [d0|]; [|done].
    simpl in Hsid. injection Hsid as <-. rewrite Hf in Hu. injection Hu as <-.
    eexists. rewrite lookup_insert_eq. split; [done|]. simpl. set_solver.
  - rewrite lookup_alter_ne in Hsid by done.
    destruct (Hok sid d u Hsid Hu) as (entry & Hentry & Hin).
    destruct (decide (u = user)) as [->|Hune].
    + eexists. rewrite lookup_insert_eq. split; [done|].
      rewrite Hentry. simpl. set_solver.
    + exists entry. by rewrite lookup_insert_ne.
Qed.

(** Closing [socketId] and removing it from one entry of the registry, as
    the transport and the [disconnect] listener do. *)
Lemma presence_ok_close socks registry socketId user :
  presence_ok socks registry →
  presence_ok (delete socketId socks)
    (alter (λ entry, mkPresence (socketIds entry ∖ {[socketId]}) (lastSeen entry))
           user registry).
Proof.
  intros Hok sid d u Hsid Hu.
  apply lookup_delete_Some in Hsid as [Hne Hsid].
  destruct (Hok sid d u Hsid Hu) as (entry & Hentry & Hin).
  destruct (decide (u = user)) as [->|Hune].
  - eexists. rewrite lookup_alter_eq, Hentry. split; [done|]. simpl. set_solver.
  - exists entry. by rewrite lookup_alter_ne.
Qed.

Lemma presence_ok_delete socks registry socketId :
  presence_ok socks registry → presence_ok (delete socketId socks) registry.
Proof.
  intros Hok sid d u Hsid Hu.
  apply lookup_delete_Some in Hsid as [Hne Hsid]. eauto.
Qed.

Lemma presence_inv_user_online env socketId userAddress st :
  presence_inv st → presence_inv (exec (on_user_online env socketId userAddress) st).
Proof.
  intros Hinv. unfold on_user_online.
  destruct userAddress as [address|]; [|done].
  destruct (JS.falsy (Some address)); [done|].
  unfold mark_online, set_data_userAddress. run.
  rewrite exec_forEach_pure by (intros; case_decide; by run).
  unfold presence_inv. simpl. by apply presence_ok_register.
Qed.

Lemma presence_inv_join_room env socketId roomId userAddress st :
  presence_inv st →
  presence_inv (exec (on_join_room env socketId roomId userAddress) st).
Proof.
  intros Hinv. unfold on_join_room.
  destruct roomId as [room|], userAddress as [address|]; try done.
  destruct (_ || _); [done|]. run.
  rewrite exec_join_room_loaded, exec_join_room_begin.
  unfold presence_inv. simpl. rewrite alter_alter_eq.
  by apply presence_ok_register.
Qed.

Lemma presence_inv_disconnect socketId st :
  presence_inv st → presence_inv (exec (disconnect socketId) st).
Proof.
  intros Hinv. unfold disconnect, cleanup, on_disconnect. run.
  set (data := default _ _). simpl.
  assert (∀ user st', exec (forEach (socket_rooms socketId st')
            (λ room, if decide (room ≠ socketId)
                     then io_to_emit room (user_status user offline)
                     else skip)) st' = st') as Hloop.
  { intros. apply exec_forEach_pure. intros. case_decide; by run. }
  unfold presence_inv.
  destruct (truthy (data_userAddress data)) as [user|],
           (truthy (data_roomId data)) as [room|]; run; simpl;
    repeat (first [case_decide | destruct (registry_online _ _)];
            run; rewrite ?Hloop; simpl);
    first [by apply presence_ok_close | by apply presence_ok_delete].
Qed.

(** The handlers that touch neither the sockets nor the registry. *)
Lemma presence_inv_other (m : M unit) (st : Server) :
  sockets (exec m st) = sockets st →
  onlineUsers (exec m st) = onlineUsers st →
  presence_inv st → presence_inv (exec m st).
Proof. unfold presence_inv. by intros -> ->. Qed.

(** Every event keeps the registry in step with the identified sockets,
    so the invariant holds in every state the event loop reaches. *)
Lemma presence_inv_handle (e : Event) (st : Server) :
  presence_inv st → presence_inv (exec (handle e) st).
Proof.
  intros Hinv. destruct e; simpl.
  - unfold connect. run. unfold presence_inv. simpl.
    intros sid d u Hsid Hu.
    destruct (decide (sid = socketId)) as [->|Hne].
    + rewrite lookup_insert_eq in Hsid. by injection Hsid as <-.
    + rewrite lookup_insert_ne in Hsid by done. eauto.
  - by apply presence_inv_user_online.
  - by apply presence_inv_join_room.
  - unfold recheck_other. run. by destruct (other_in_room _ _ _); run.
  - apply presence_inv_other; [| |done];
      unfold on_typing_start; run; by case_decide; run.
  - apply presence_inv_other; [| |done];
      unfold on_typing_stop; run;
      repeat (case_decide; run; simpl); done.
  - apply presence_inv_other; [| |done]; unfold on_chat_message;
      destruct roomId as [room|], sender as [s|], message as [m|]; try done;
      (destruct (_ || _); [done|]); run; rewrite exec_saveChatMessageToDB;
      repeat (first [case_decide
                    | destruct (chatMessagesCollection _)
                    | destruct (store_ok _)]; run; simpl);
      done.
  - rewrite exec_on_video_call_ended, exec_saveChatMessageToDB. simpl.
    by destruct (chatMessagesCollection st); [destruct (store_ok env)|].
  - by rewrite exec_on_video_call_status.
  - by apply presence_inv_disconnect.
Qed.

Lemma presence_inv_event_loop (events : list Event) (st : Server) :
  presence_inv st → presence_inv (exec (event_loop events) st).
Proof.
  revert st. induction events as [|e events IH]; intros st Hinv; [done|].
  unfold event_loop. simpl. run. apply IH. by apply presence_inv_handle.
Qed.

Lemma presence_inv_initial collection : presence_inv (initial collection).
Proof. intros sid d u Hsid. simpl in Hsid. by rewrite lookup_empty in Hsid. Qed.

(** Under the invariant, a socket of the other user found in the room
    means a non-empty set in the registry: the status [join-room] reports
    for the other user is [online] exactly when that set is non-empty. *)
Lemma other_in_room_registry roomId otherUser st :
  presence_inv st →
  other_in_room roomId otherUser st = true → registry_online otherUser st = true.
Proof.
  intros Hinv Hin. unfold other_in_room in Hin.
  apply existsb_exists in Hin as (sid & _ & Hsid).
  destruct (sockets st !! sid) as [d|] eqn:Hd; [|done].
  apply bool_decide_eq_true in Hsid.
  destruct (Hinv sid d otherUser Hd Hsid) as (entry & Hentry & Hmem).
  unfold registry_online. rewrite Hentry. apply bool_decide_eq_true. set_solver.
Qed.

Lemma join_room_reports_registry socketId roomId normalizedAddress dbMessages
    user1 user2 rest (st : Server) :
  presence_inv st →
  JS.split "_" roomId = user1 :: user2 :: rest → user1 ≠ "" → user2 ≠ "" →
  let otherUser := if decide (JS.toLowerCase user1 = normalizedAddress)
                   then JS.toLowerCase user2 else JS.toLowerCase user1 in
  user_status otherUser (if registry_online otherUser st then online else offline)
    ∈ (emitted (effects (join_room_loaded socketId roomId normalizedAddress
                           dbMessages) st)).*2.
Proof.
  intros Hinv Hsplit H1 H2 otherUser.
  unfold join_room_loaded. rewrite Hsplit.
  rewrite !bool_decide_eq_true_2 by done. simpl. fold otherUser. run.
  unfold emitted. rewrite omap_app, fmap_app, elem_of_app. right.
  set (st' := exec _ st).
  assert (other_in_room roomId otherUser st' = other_in_room roomId otherUser st
          ∧ registry_online otherUser st' = registry_online otherUser st)
    as [-> ->].
  { unfold st'. by case_bool_decide; run. }
  simpl.
  destruct (other_in_room roomId otherUser st) eqn:Hroom; simpl.
  - rewrite (other_in_room_registry _ _ _ Hinv Hroom). set_solver.
  - set_solver.
Qed.

(** When the last connection of a user closes, the [disconnect] listener
    tells the room kept in [socket.data.roomId], once, and no other
    room. *)
Lemma disconnect_tells_last_room_only socketId user room entry (st : Server) room' :
  sockets st !! socketId = Some (mkData (Some user) (Some room)) →
  user ≠ "" → room ≠ "" →
  onlineUsers st !! user = Some entry →
  socketIds entry ∖ {[socketId]} = ∅ →
  offline_count room' user (effects (disconnect socketId) st)
  = if decide (room' = room) then 1%nat else 0%nat.
Proof.
  intros Hdata Hu Hr Hentry Hlast.
  unfold disconnect. run. rewrite Hdata.
  unfold cleanup, on_disconnect.
  cbn [default from_option id data_userAddress data_roomId].
  rewrite (truthy_Some _ Hu), (truthy_Some _ Hr). run. simpl.
  rewrite Hentry. rewrite decide_True by done. run. simpl.
  set (st' := with_onlineUsers _ _).
  assert (registry_online user st' = false) as ->.
  { unfold registry_online, st'. simpl. rewrite lookup_alter_eq, Hentry. simpl.
    by rewrite Hlast, bool_decide_eq_false; intros H; apply H. }
  assert (socket_rooms socketId st' = []) as ->.
  { unfold socket_rooms, st'. simpl. by rewrite lookup_delete_eq. }
  simpl. run.
  unfold offline_count, emitted.
  case_decide; run; simpl; rewrite ?filter_cons, ?filter_nil; simpl;
    destruct (decide (room' = room)) as [->|Hne];
    repeat destruct (decide _); simpl; intuition congruence.
Qed.


(** C3: the offline notice does not reach every room exactly once. Socket
    ["s1"], the only connection of user ["a"], has joined rooms ["a_b"]
    and ["a_c"], where ["b"] and ["c"] are connected. When ["s1"]
    disconnects, ["a"] has no connection left, and the [disconnect]
    listener tells only the room joined last: ["a_b"] gets no offline
    event, because the transport has emptied [socket.rooms] by then. Were
    the listener to run while [socket.rooms] is still populated, the room
    joined last would be told twice. *)
Theorem offline_not_told_once_per_room :
  let env := mkEnv 1000 "k3x" true in
  let st := exec (connect "s1" ;; connect "s2" ;; connect "s3" ;;
                  on_join_room env "s1" (Some "a_b") (Some "a") ;;
                  on_join_room env "s1" (Some "a_c") (Some "a") ;;
                  on_join_room env "s2" (Some "a_b") (Some "b") ;;
                  on_join_room env "s3" (Some "a_c") (Some "c"))
                 (initial (Some [])) in
  socketIds <$> onlineUsers st !! "a" = Some {["s1"]}
  ∧ room_members "a_b" st = {["s1"; "s2"]}
  ∧ room_members "a_c" st = {["s1"; "s3"]}
  ∧ registry_online "a" (exec (disconnect "s1") st) = false
  ∧ offline_count "a_b" "a" (effects (disconnect "s1") st) = 0%nat
  ∧ offline_count "a_c" "a" (effects (disconnect "s1") st) = 1%nat
  ∧ offline_count "a_b" "a" (effects (disconnecting "s1") st) = 1%nat
  ∧ offline_count "a_c" "a" (effects (disconnecting "s1") st) = 2%nat.
Proof. intros env st. repeat split; vm_compute; reflexivity. Qed.

(** * Further properties of the relay *)

(** ** Presence across the event loop *)

(** X1: in every state the event loop reaches from start-up, a connected
    socket that identified itself as [user] is in [user]'s set of the
    registry; hence a socket of the other user found in a room always
    comes with a non-empty set in the registry. *)
Theorem registry_covers_identified_sockets (collection : option (list Doc))
    (events : list Event) (roomId otherUser : string) :
  let st := exec (event_loop events) (initial collection) in
  presence_inv st
  ∧ implb (other_in_room roomId otherUser st) (registry_online otherUser st) = true.
Proof.
  intros st.
  assert (presence_inv st) as Hinv.
  { apply presence_inv_event_loop, presence_inv_initial. }
  split; [done|].
  destruct (other_in_room roomId otherUser st) eqn:Hin; [|done].
  simpl. exact (other_in_room_registry roomId otherUser st Hinv Hin).
Qed.

(** ** The store is append-only *)

Lemma store_calls_app (l1 l2 : list Effect) :
  store_calls (l1 ++ l2) = store_calls l1 ++ store_calls l2.
Proof. apply omap_app. Qed.

Lemma handle_appends_to_store (e : Event) (st : Server) :
  ∃ added,
    chatMessagesCollection (exec (handle e) st)
    = (λ docs, docs ++ added) <$> chatMessagesCollection st
    ∧ added `sublist_of` store_calls (effects (handle e) st).
Proof.
  assert (∀ m : M unit,
            chatMessagesCollection (exec m st) = chatMessagesCollection st →
            ∃ added,
              chatMessagesCollection (exec m st)
              = (λ docs, docs ++ added) <$> chatMessagesCollection st
              ∧ added `sublist_of` store_calls (effects m st)) as Hsame.
  { intros m ->. exists []. split; [|apply sublist_nil_l].
    destruct (chatMessagesCollection st); simpl; by rewrite ?app_nil_r. }
  destruct e; simpl.
  - apply Hsame. unfold connect. by run.
  - apply Hsame. unfold on_user_online.
    destruct userAddress as [address|]; [|done].
    destruct (JS.falsy _); [done|].
    unfold mark_online, set_data_userAddress. run.
    by rewrite exec_forEach_pure by (intros; case_decide; by run).
  - apply Hsame. unfold on_join_room.
    destruct roomId as [room|], userAddress as [address|]; try done.
    destruct (_ || _); [done|]. run.
    by rewrite exec_join_room_loaded, exec_join_room_begin.
  - apply Hsame. unfold recheck_other. run. by destruct (other_in_room _ _ _); run.
  - apply Hsame. unfold on_typing_start. run. by case_decide; run.
  - apply Hsame. unfold on_typing_stop. run.
    repeat (case_decide; run; simpl); done.
  - destruct roomId as [room|], sender as [s|], message as [m|];
      try (apply Hsame; done).
    destruct (JS.falsy (Some room) || JS.falsy (Some s) || JS.falsy (Some m)) eqn:Hbad.
    { apply Hsame. unfold on_chat_message. by rewrite Hbad. }
    apply orb_false_elim in Hbad as [Hbad Hm].
    apply orb_false_elim in Hbad as [Hr Hs].
    simpl in Hr, Hs, Hm.
    apply bool_decide_eq_false in Hr, Hs, Hm.
    rewrite collection_on_chat_message, effects_on_chat_message by done.
    rewrite !store_calls_app.
    destruct (chatMessagesCollection st) as [docs|] eqn:Hc; simpl.
    + destruct (store_ok env); simpl.
      * eexists [_]. split; [done|].
        repeat case_decide; simpl; done.
      * exists []. split; [by rewrite app_nil_r|apply sublist_nil_l].
    + exists []. split; [by destruct (store_ok env)|apply sublist_nil_l].
  - rewrite exec_on_video_call_ended, effects_on_video_call_ended,
      exec_saveChatMessageToDB, effects_saveChatMessageToDB. simpl.
    destruct (chatMessagesCollection st) as [docs|] eqn:Hc; simpl.
    + destruct (store_ok env); simpl.
      * rewrite ?Hc. simpl. eexists [_]. split; done.
      * rewrite ?Hc. exists []. split; [by rewrite app_nil_r|apply sublist_nil_l].
    + rewrite ?Hc. exists []. split; [done|apply sublist_nil_l].
  - apply Hsame. by rewrite exec_on_video_call_status.
  - apply Hsame. unfold disconnect, cleanup, on_disconnect. run.
    set (data := default _ _). simpl.
    assert (∀ user st', exec (forEach (socket_rooms socketId st')
              (λ room, if decide (room ≠ socketId)
                       then io_to_emit room (user_status user offline)
                       else skip)) st' = st') as Hloop.
    { intros. apply exec_forEach_pure. intros. case_decide; by run. }
    destruct (truthy (data_userAddress data)) as [user|],
             (truthy (data_roomId data)) as [room|]; run; simpl;
      repeat (first [case_decide | destruct (registry_online _ _)];
              run; rewrite ?Hloop; simpl);
      done.
Qed.

(** X2: no event deletes or rewrites a stored document, and no event
    connects or disconnects the collection: after any sequence of events
    the store is the store before, followed by documents that were handed
    to [insertOne] during the run, in the order of the calls. *)
Theorem store_is_append_only (events : list Event) (st : Server) :
  ∃ added,
    chatMessagesCollection (exec (event_loop events) st)
    = (λ docs, docs ++ added) <$> chatMessagesCollection st
    ∧ added `sublist_of` store_calls (effects (event_loop events) st).
Proof.
  revert st. induction events as [|e events IH]; intros st.
  - exists []. split; [|apply sublist_nil_l].
    unfold event_loop. simpl. run.
    destruct (chatMessagesCollection st); simpl; by rewrite ?app_nil_r.
  - unfold event_loop. simpl. run. fold (event_loop events).
    destruct (handle_appends_to_store e st) as (a1 & Hc1 & Hs1).
    destruct (IH (exec (handle e) st)) as (a2 & Hc2 & Hs2).
    exists (a1 ++ a2). split.
    + rewrite Hc2, Hc1. destruct (chatMessagesCollection st); simpl; [|done].
      by rewrite app_assoc.
    + rewrite store_calls_app. by apply sublist_app.
Qed.

(** ** [user-online] *)

Lemma emitted_app (l1 l2 : list Effect) :
  emitted (l1 ++ l2) = emitted l1 ++ emitted l2.
Proof. apply omap_app. Qed.

Lemma effects_forEach_emit (rooms : list string) (socketId : string)
    (ev : OutEvent) (st : Server) :
  emitted (effects (forEach rooms (λ roomId,
             if decide (roomId ≠ socketId) then io_to_emit roomId ev else skip)) st)
  = (λ roomId, (to_room roomId, room_members roomId st, ev))
      <$> filter (λ roomId, roomId ≠ socketId) rooms.
Proof.
  induction rooms as [|room rooms IH]; simpl; run; [done|].
  rewrite emitted_app, filter_cons.
  assert (exec (if decide (room ≠ socketId) then io_to_emit room ev else skip) st
          = st) as -> by (case_decide; by run).
  rewrite IH. case_decide; run; done.
Qed.

(** X3: [user-online] with a missing or empty address does nothing, without
    even a warning. With an address it adds the socket to the registry
    entry of the lowercased address, sets [socket.data.userAddress], and
    tells every room the socket has joined, once each and in joining order,
    that the user is online; the socket's own room is never told, and
    rooms, cache, typing map and store are untouched. *)
Theorem user_online_notifies_joined_rooms (env : Env) (socketId address : string)
    (st : Server) :
  address ≠ "" →
  let user := JS.toLowerCase address in
  let run := on_user_online env socketId (Some address) in
  emitted (effects run st)
  = (λ roomId, (to_room roomId, room_members roomId st, user_status user online))
      <$> filter (λ roomId, roomId ≠ socketId) (socket_rooms socketId st)
  ∧ onlineUsers (exec run st)
    = <[user := mkPresence
                  (socketIds (default (mkPresence ∅ (now env)) (onlineUsers st !! user))
                   ∪ {[socketId]})
                  (now env)]> (onlineUsers st)
  ∧ sockets (exec run st)
    = alter (λ d, mkData (Some user) (data_roomId d)) socketId (sockets st)
  ∧ sids (exec run st) = sids st
  ∧ chatRoomsCache (exec run st) = chatRoomsCache st
  ∧ typingUsers (exec run st) = typingUsers st
  ∧ chatMessagesCollection (exec run st) = chatMessagesCollection st
  ∧ exec (on_user_online env socketId None) st = st
  ∧ effects (on_user_online env socketId None) st = []
  ∧ exec (on_user_online env socketId (Some "")) st = st
  ∧ effects (on_user_online env socketId (Some "")) st = [].
Proof.
  intros Haddr user run. subst run.
  unfold on_user_online at 1 2 3 4 5 6 7.
  rewrite (falsy_Some _ Haddr). fold user.
  unfold mark_online, set_data_userAddress. run.
  rewrite exec_forEach_pure by (intros; case_decide; by run).
  split; [|by repeat split].
  set (st' := with_sockets _ _).
  change (socket_rooms socketId st') with (socket_rooms socketId st).
  by rewrite effects_forEach_emit.
Qed.

Lemma user_online_notifies_joined_rooms_witness :
  let env := mkEnv 1000 "k3x" true in
  let st := exec (connect "s1" ;; on_join_room env "s1" (Some "a_b") (Some "a"))
                 (initial None) in
  "0xAB" ≠ ""
  ∧ emitted (effects (on_user_online env "s1" (Some "0xAB")) st)
    = [(to_room "a_b", room_members "a_b" st, user_status "0xab" online)].
Proof.
  intros env st. split; [done|].
  destruct (user_online_notifies_joined_rooms env "s1" "0xAB" st) as [-> _];
    [done|].
  vm_compute. reflexivity.
Defined.

(** ** [join-room] *)







Lemma toLowerCase_nonempty (s : string) : s ≠ "" → JS.toLowerCase s ≠ "".
Proof. by destruct s. Qed.


Lemma createRoomId_nonempty (a b : string) : createRoomId a b ≠ "".
Proof.
  rewrite createRoomId_unfold. simpl.
  destruct (String.leb _ _).
  - by destruct (JS.toLowerCase a).
  - by destruct (JS.toLowerCase b).
Qed.




(** ** Typing indicators *)

(** X6: [typing-start] followed by [typing-stop] for a user who was not
    typing in the room gives back the typing map as it was (no empty set
    is left behind), and both events are sent to the members of the room
    other than the emitting socket, which never receives its own
    indicator. *)
Theorem typing_start_stop_round_trip (socketId roomId userAddress : string)
    (st : Server) :
  typing_inv st →
  userAddress ∉ default ∅ (typingUsers st !! roomId) →
  let start := on_typing_start socketId roomId userAddress in
  let stop := on_typing_stop socketId roomId userAddress in
  typingUsers (exec stop (exec start st)) = typingUsers st
  ∧ userAddress ∈ default ∅ (typingUsers (exec start st) !! roomId)
  ∧ effects (start ;; stop) st
    = [Emit (to_room_except roomId socketId) (room_members roomId st ∖ {[socketId]})
            (typing userAddress true);
       Emit (to_room_except roomId socketId) (room_members roomId st ∖ {[socketId]})
            (typing userAddress false)]
  ∧ socketId ∉ room_members roomId st ∖ {[socketId]}.
Proof.
  intros Hinv Hnot start stop. subst start stop.
  split; [|split; [|split]].
  - rewrite typingUsers_on_typing_stop, typingUsers_on_typing_start.
    rewrite lookup_insert_eq.
    destruct (typingUsers st !! roomId) as [users|] eqn:Hu; simpl in *.
    + assert ((users ∪ {[userAddress]}) ∖ {[userAddress]} = users) as ->
        by set_solver.
      rewrite decide_False by (by apply (Hinv roomId users)).
      rewrite insert_insert_eq. by apply insert_id.
    + assert (((∅ : gset string) ∪ {[userAddress]}) ∖ {[userAddress]} = ∅) as ->
        by set_solver.
      rewrite decide_True by done. by rewrite delete_insert_eq, delete_id.
  - rewrite typingUsers_on_typing_start, lookup_insert_eq. simpl. set_solver.
  - unfold on_typing_start, on_typing_stop. run.
    repeat (case_decide; run; simpl); done.
  - set_solver.
Qed.

Lemma typing_start_stop_round_trip_witness :
  let env := mkEnv 1000 "k3x" true in
  let st := exec (connect "s1" ;; on_join_room env "s1" (Some "a_b") (Some "a") ;;
                  on_typing_start "s1" "a_b" "b")
                 (initial None) in
  (typing_inv st ∧ "a" ∉ default ∅ (typingUsers st !! "a_b"))
  ∧ typingUsers (exec (on_typing_stop "s1" "a_b" "a")
                      (exec (on_typing_start "s1" "a_b" "a") st))
    = typingUsers st.
Proof.
  intros env st.
  assert (typing_inv st) as Hinv.
  { apply (bool_decide_unpack (map_Forall (λ _ users, users ≠ (∅ : gset string))
                                          (typingUsers st))).
    vm_compute. exact I. }
  assert ("a" ∉ default ∅ (typingUsers st !! "a_b")) as Hnot.
  { apply (bool_decide_unpack ("a" ∉ default ∅ (typingUsers st !! "a_b"))).
    vm_compute. exact I. }
  split; [done|].
  by destruct (typing_start_stop_round_trip "s1" "a_b" "a" st Hinv Hnot) as [? _].
Defined.

(** ** Disconnect *)

(** X7: a user who still has another connection is not announced
    offline. When a socket closes and the registry entry of its user
    keeps another socket, the [disconnect] listener sends no
    [user-status] event at all; the entry only loses the closed
    socket. *)
Theorem disconnect_keeps_user_online (socketId user : string)
    (room : option string) (entry : Presence) (st : Server) :
  sockets st !! socketId = Some (mkData (Some user) room) →
  user ≠ "" →
  onlineUsers st !! user = Some entry →
  socketIds entry ∖ {[socketId]} ≠ ∅ →
  let run := disconnect socketId in
  Forall (λ x, match x.2 with user_status _ _ => False | _ => True end)
         (emitted (effects run st))
  ∧ onlineUsers (exec run st)
    = <[user := mkPresence (socketIds entry ∖ {[socketId]}) (lastSeen entry)]>
        (onlineUsers st)
  ∧ registry_online user (exec run st) = true
  ∧ sockets (exec run st) = delete socketId (sockets st).
Proof.
  intros Hdata Hu Hentry Hrest run. subst run.
  assert (∀ rm st', exec
            (match truthy rm with
             | Some room0 =>
                 if decide (is_Some (typingUsers st' !! room0)) then
                   modify (with_typingUsers
                             (alter (λ users, users ∖ {[user]}) room0)) ;;
                   io_to_emit room0 (typing user false)
                 else skip
             | None => skip
             end) st'
          = with_typingUsers
              (match truthy rm with
               | Some room0 => alter (λ users, users ∖ {[user]}) room0
               | None => λ m, m
               end) st'
          ∧ Forall (λ x, match x.2 with user_status _ _ => False | _ => True end)
              (emitted (effects
                 (match truthy rm with
                  | Some room0 =>
                      if decide (is_Some (typingUsers st' !! room0)) then
                        modify (with_typingUsers
                                  (alter (λ users, users ∖ {[user]}) room0)) ;;
                        io_to_emit room0 (typing user false)
                      else skip
                  | None => skip
                  end) st'))) as Htyping.
  { intros rm st'. destruct (truthy rm) as [room0|]; [|by destruct st'].
    case_decide as Hsome; run; simpl.
    - split; [done|]. by repeat constructor.
    - split; [|constructor].
      destruct st'. unfold with_typingUsers. simpl in *. f_equal.
      destruct (typingUsers0 !! room0) eqn:Hl; [by destruct Hsome|].
      symmetry. apply map_eq. intros k.
      destruct (decide (k = room0)) as [->|];
        [by rewrite lookup_alter_eq, Hl|by rewrite lookup_alter_ne]. }
  unfold disconnect. run. rewrite Hdata.
  unfold cleanup, on_disconnect.
  cbn [default from_option id data_userAddress data_roomId].
  rewrite (truthy_Some _ Hu). run. simpl.
  rewrite Hentry. rewrite decide_True by done. run. simpl.
  set (st' := with_onlineUsers _ _).
  assert (registry_online user st' = true) as Hon.
  { unfold registry_online, st'. simpl. rewrite lookup_alter_eq, Hentry. simpl.
    by apply bool_decide_eq_true. }
  rewrite Hon. run.
  destruct (Htyping room st') as [-> Hev].
  split; [exact Hev|].
  split; [|split].
  - unfold st'. simpl. by rewrite (alter_alt_Some _ _ _ entry).
  - exact Hon.
  - reflexivity.
Qed.

Lemma disconnect_keeps_user_online_witness :
  let env := mkEnv 1000 "k3x" true in
  let st := exec (connect "s1" ;; connect "s2" ;;
                  on_join_room env "s1" (Some "a_b") (Some "a") ;;
                  on_join_room env "s2" (Some "a_b") (Some "a"))
                 (initial None) in
  (sockets st !! "s1" = Some (mkData (Some "a") (Some "a_b"))
   ∧ "a" ≠ ""
   ∧ onlineUsers st !! "a" = Some (mkPresence {["s1"; "s2"]} 1000)
   ∧ socketIds (mkPresence {["s1"; "s2"]} 1000) ∖ {["s1"]} ≠ ∅)
  ∧ registry_online "a" (exec (disconnect "s1") st) = true.
Proof.
  intros env st.
  assert (sockets st !! "s1" = Some (mkData (Some "a") (Some "a_b"))) as Hd
    by (vm_compute; reflexivity).
  assert (onlineUsers st !! "a" = Some (mkPresence {["s1"; "s2"]} 1000)) as He
    by (vm_compute; reflexivity).
  assert (socketIds (mkPresence {["s1"; "s2"]} 1000) ∖ {["s1"]} ≠ (∅ : gset string))
    as Hl.
  { apply (bool_decide_unpack
             (socketIds (mkPresence {["s1"; "s2"]} 1000) ∖ {["s1"]}
              ≠ (∅ : gset string))).
    vm_compute. exact I. }
  split; [by repeat split|].
  by destruct (disconnect_keeps_user_online "s1" "a" (Some "a_b")
                 (mkPresence {["s1"; "s2"]} 1000) st Hd) as (_ & _ & ? & _).
Defined.

(** The registry entries of the users other than the one the socket
    last identified as are not touched by its [disconnect]. *)
Lemma onlineUsers_disconnect_other (socketId user former : string)
    (room : option string) (st : Server) :
  sockets st !! socketId = Some (mkData (Some user) room) →
  former ≠ user →
  onlineUsers (exec (disconnect socketId) st) !! former
  = onlineUsers st !! former.
Proof.
  intros Hdata Hne.
  unfold disconnect. run. rewrite Hdata.
  unfold cleanup, on_disconnect.
  cbn [default from_option id data_userAddress data_roomId].
  assert (∀ who st', exec (forEach (socket_rooms socketId st')
            (λ room0, if decide (room0 ≠ socketId)
                      then io_to_emit room0 (user_status who offline)
                      else skip)) st' = st') as Hloop.
  { intros. apply exec_forEach_pure. intros. case_decide; by run. }
  destruct (decide (user = "")) as [->|Hu].
  - assert (truthy (Some "") = None) as -> by reflexivity.
    run. simpl.
    destruct (truthy room) as [r|]; run; simpl;
      repeat (case_decide; run; simpl); done.
  - rewrite (truthy_Some _ Hu). run. simpl.
    destruct (truthy room) as [r|];
      repeat (first [case_decide | destruct (registry_online _ _)];
              run; rewrite ?Hloop; simpl);
      by rewrite ?lookup_alter_ne.
Qed.

(** X8: the registry forgets a closed socket only under the name it
    used last. A socket that identified as [former] and later as another
    user stays in the entry of [former] when it closes: the registry goes
    on counting [former] as online through a connection that no longer
    exists. *)
Theorem disconnect_leaves_former_identity (socketId user former : string)
    (room : option string) (entry : Presence) (st : Server) :
  sockets st !! socketId = Some (mkData (Some user) room) →
  former ≠ user →
  onlineUsers st !! former = Some entry →
  socketId ∈ socketIds entry →
  let st' := exec (disconnect socketId) st in
  sockets st' !! socketId = None
  ∧ onlineUsers st' !! former = Some entry
  ∧ registry_online former st' = true.
Proof.
  intros Hdata Hne Hentry Hin st'.
  assert (onlineUsers st' !! former = Some entry) as Hkept.
  { unfold st'. by rewrite (onlineUsers_disconnect_other _ _ _ _ _ Hdata Hne). }
  split_and!; [|done|].
  - unfold st', disconnect. run. rewrite Hdata.
    assert (∀ data st0, sockets (exec (on_disconnect socketId data) st0)
                        = sockets st0) as Hsock.
    { intros data st0. unfold on_disconnect. run.
      assert (∀ who st1, exec (forEach (socket_rooms socketId st1)
                (λ room0, if decide (room0 ≠ socketId)
                          then io_to_emit room0 (user_status who offline)
                          else skip)) st1 = st1) as Hloop.
      { intros. apply exec_forEach_pure. intros. case_decide; by run. }
      destruct (truthy (data_userAddress data)) as [u|],
               (truthy (data_roomId data)) as [r|]; run; simpl;
        repeat (first [case_decide | destruct (registry_online _ _)];
                run; rewrite ?Hloop; simpl);
        done. }
    rewrite Hsock. unfold cleanup. run. simpl. apply lookup_delete_eq.
  - unfold registry_online. rewrite Hkept. simpl.
    apply bool_decide_eq_true. set_solver.
Qed.

Lemma disconnect_leaves_former_identity_witness :
  let env := mkEnv 1000 "k3x" true in
  let st := exec (connect "s1" ;;
                  on_user_online env "s1" (Some "a") ;;
                  on_join_room env "s1" (Some "b_c") (Some "b"))
                 (initial None) in
  (sockets st !! "s1" = Some (mkData (Some "b") (Some "b_c"))
   ∧ "a" ≠ "b"
   ∧ onlineUsers st !! "a" = Some (mkPresence {["s1"]} 1000)
   ∧ "s1" ∈ socketIds (mkPresence {["s1"]} 1000))
  ∧ sockets (exec (disconnect "s1") st) !! "s1" = None
  ∧ registry_online "a" (exec (disconnect "s1") st) = true.
Proof.
  intros env st.
  assert (sockets st !! "s1" = Some (mkData (Some "b") (Some "b_c"))) as Hd
    by (vm_compute; reflexivity).
  assert (onlineUsers st !! "a" = Some (mkPresence {["s1"]} 1000)) as He
    by (vm_compute; reflexivity).
  assert ("s1" ∈ socketIds (mkPresence {["s1"]} 1000)) as Hin by set_solver.
  split; [by repeat split|].
  by destruct (disconnect_leaves_former_identity "s1" "b" "a" (Some "b_c")
                 (mkPresence {["s1"]} 1000) st Hd) as (? & _ & ?).
Defined.

(** ** One room at a time *)

Lemma alter_absent {A} (f : A → A) (k : string) (m : gmap string A) :
  m !! k = None → alter f k m = m.
Proof.
  intros Hk. apply map_eq. intros k'.
  destruct (decide (k' = k)) as [->|];
    [by rewrite lookup_alter_eq, Hk|by rewrite lookup_alter_ne].
Qed.

(** The state after a valid [chat-message]. *)
Lemma exec_on_chat_message (env : Env) (socketId room message sender : string)
    (timestamp : option Z) (type : option string) (st : Server) :
  room ≠ "" → sender ≠ "" → message ≠ "" →
  let m := chat_messageObj env message (JS.toLowerCase sender) timestamp type in
  exec (on_chat_message env socketId (Some room) (Some message) (Some sender)
          timestamp type) st
  = mkServer
      (<[room := cached room st ++ [m]]> (chatRoomsCache st))
      (onlineUsers st)
      (alter (λ users, users ∖ {[JS.toLowerCase sender]}) room (typingUsers st))
      (if store_ok env
       then (λ docs, docs ++ [mkDoc room m]) <$> chatMessagesCollection st
       else chatMessagesCollection st)
      (sockets st)
      (sids st).
Proof.
  intros Hr Hs Hm m. unfold on_chat_message.
  rewrite (falsy_Some _ Hr), (falsy_Some _ Hs), (falsy_Some _ Hm). simpl.
  fold m. run. rewrite exec_saveChatMessageToDB.
  destruct (decide (is_Some (typingUsers st !! room))) as [Hsome|Hnone]; run;
    unfold userCount, room_members; simpl;
    case_decide; run; simpl;
    destruct (chatMessagesCollection st) as [docs|] eqn:Hc,
             (store_ok env); simpl;
    unfold with_chatRoomsCache, with_collection, with_typingUsers, cached;
    simpl; rewrite ?Hc; try reflexivity;
    rewrite alter_absent; try reflexivity;
    by destruct (typingUsers st !! room); [destruct Hnone|].
Qed.

(** X9: a valid [chat-message] for one room leaves every other room
    alone: their cached messages and typing sets are unchanged, the
    registry, the sockets and the room memberships are untouched, and
    every event it sends is addressed to the room of the message. In that
    room the message is appended to the cache and the sender is removed
    from the typing set. *)
Theorem chat_message_touches_one_room (env : Env)
    (socketId room message sender other : string)
    (timestamp : option Z) (type : option string) (st : Server) :
  room ≠ "" → sender ≠ "" → message ≠ "" → other ≠ room →
  let run := on_chat_message env socketId (Some room) (Some message)
               (Some sender) timestamp type in
  let m := chat_messageObj env message (JS.toLowerCase sender) timestamp type in
  cached other (exec run st) = cached other st
  ∧ typingUsers (exec run st) !! other = typingUsers st !! other
  ∧ cached room (exec run st) = cached room st ++ [m]
  ∧ typingUsers (exec run st) !! room
    = (λ users, users ∖ {[JS.toLowerCase sender]}) <$> typingUsers st !! room
  ∧ onlineUsers (exec run st) = onlineUsers st
  ∧ sockets (exec run st) = sockets st
  ∧ sids (exec run st) = sids st
  ∧ Forall (λ x, x.1.1 = to_room room) (emitted (effects run st)).
Proof.
  intros Hr Hs Hm Hother run m. subst run.
  rewrite exec_on_chat_message, effects_on_chat_message by done. fold m.
  unfold cached. simpl.
  rewrite lookup_insert_eq, lookup_insert_ne, lookup_alter_eq, lookup_alter_ne
    by done.
  repeat split; try done.
  rewrite !emitted_app. rewrite !Forall_app. repeat split.
  - case_decide; by repeat constructor.
  - case_decide; by repeat constructor.
  - destruct (chatMessagesCollection st); [destruct (store_ok env)|];
      by repeat constructor.
Qed.

Lemma chat_message_touches_one_room_witness :
  let env := mkEnv 1000 "k3x" true in
  let st := exec (connect "s1" ;; on_join_room env "s1" (Some "a_b") (Some "a") ;;
                  on_chat_message env "s1" (Some "a_c") (Some "old") (Some "a")
                    None None)
                 (initial (Some [])) in
  let run := on_chat_message env "s1" (Some "a_b") (Some "hi") (Some "A") None None in
  ("a_b" ≠ "" ∧ "A" ≠ "" ∧ "hi" ≠ "" ∧ "a_c" ≠ "a_b")
  ∧ cached "a_c" (exec run st) = cached "a_c" st.
Proof.
  intros env st run. split; [by repeat split|].
  by destruct (chat_message_touches_one_room env "s1" "a_b" "hi" "A" "a_c"
                 None None st) as [? _].
Defined.

(** ** What is stored *)

(** X10: every document the relay stores has a non-empty text and a
    normalised sender: the lowercased sender of a chat message, or
    ["system"] for a call artifact. Holds for the store after any sequence
    of events, started with an empty (or no) collection. *)
Theorem stored_senders_normalised (connected : bool) (events : list Event) :
  let st := exec (event_loop events)
                 (initial (if connected then Some [] else None)) in
  Forall (λ d, JS.toLowerCase (ChatMessage.sender (doc_fields d))
               = ChatMessage.sender (doc_fields d)
               ∧ ChatMessage.sender (doc_fields d) ≠ ""
               ∧ ChatMessage.message (doc_fields d) ≠ "")
         (stored st).
Proof.
  intros st. subst st.
  set (ok := λ d : Doc,
         JS.toLowerCase (ChatMessage.sender (doc_fields d))
         = ChatMessage.sender (doc_fields d)
         ∧ ChatMessage.sender (doc_fields d) ≠ ""
         ∧ ChatMessage.message (doc_fields d) ≠ "").
  assert (∀ e st, Forall ok (store_calls (effects (handle e) st))) as Hcalls.
  { intros e st. destruct e; simpl;
      try (unfold connect, recheck_other, on_typing_start, on_typing_stop;
           run; repeat (first [case_decide | destruct (other_in_room _ _ _)];
                        run; simpl); by constructor).
    - unfold on_user_online. destruct userAddress as [address|]; [|constructor].
      destruct (JS.falsy _); [constructor|].
      unfold mark_online, set_data_userAddress. run.
      set (st' := with_sockets _ _). generalize (socket_rooms socketId st').
      intros rooms. induction rooms as [|r rooms IH]; simpl; run; [constructor|].
      rewrite store_calls_app, Forall_app.
      assert (exec (if decide (r ≠ socketId)
                    then io_to_emit r (user_status (JS.toLowerCase address) online)
                    else skip) st' = st') as -> by (case_decide; by run).
      split; [case_decide; run; constructor|exact IH].
    - unfold on_join_room.
      destruct roomId as [room|], userAddress as [address|]; try by constructor.
      destruct (_ || _); [by constructor|]. run.
      rewrite !store_calls_app, !Forall_app.
      rewrite effects_join_room_begin, effects_loadChatFromDB.
      split; [constructor|]. split.
      + destruct (chatMessagesCollection _); [destruct (store_ok env)|]; constructor.
      + unfold join_room_loaded. run.
        rewrite store_calls_app, Forall_app. split.
        * case_bool_decide; run; constructor.
        * destruct (JS.split "_" room) as [|u1 [|u2 ?]]; run; try constructor.
          destruct (_ && _); run; constructor.
    - destruct roomId as [room|], sender as [s|], message as [m|];
        try by constructor.
      destruct (JS.falsy (Some room) || JS.falsy (Some s) || JS.falsy (Some m))
        eqn:Hbad.
      { unfold on_chat_message. rewrite Hbad. by constructor. }
      apply orb_false_elim in Hbad as [Hbad Hm].
      apply orb_false_elim in Hbad as [Hr Hs].
      simpl in Hr, Hs, Hm. apply bool_decide_eq_false in Hr, Hs, Hm.
      rewrite effects_on_chat_message by done.
      assert (ok (mkDoc room (chat_messageObj env m (JS.toLowerCase s) timestamp type)))
        as Hok.
      { unfold ok. simpl. rewrite toLowerCase_idemp.
        repeat split; [by apply toLowerCase_nonempty|done]. }
      rewrite !store_calls_app, !Forall_app. repeat split.
      + case_decide; constructor.
      + case_decide; constructor.
      + constructor.
      + destruct (chatMessagesCollection st); [destruct (store_ok env)|];
          simpl;
          first [apply Forall_nil_2 | apply Forall_cons_2; [exact Hok | apply Forall_nil_2]].
    - rewrite effects_on_video_call_ended, effects_saveChatMessageToDB. simpl.
      assert (ok (mkDoc roomId (call_messageObj env duration))) as Hok
        by (unfold ok; simpl; by repeat split).
      destruct (chatMessagesCollection st); [destruct (store_ok env)|];
        simpl;
        first [apply Forall_nil_2 | apply Forall_cons_2; [exact Hok | apply Forall_nil_2]].
    - destruct (effects_on_video_call_status socketId roomId status sender st)
        as [-> _]. constructor.
    - unfold disconnect, cleanup, on_disconnect. run.
      set (data := default _ _). simpl.
      set (st1 := with_sockets _ _).
      assert (∀ user rooms st', Forall ok (store_calls (effects (forEach rooms
                (λ room, if decide (room ≠ socketId)
                         then io_to_emit room (user_status user offline)
                         else skip)) st'))) as Hloop.
      { intros user rooms st'. induction rooms as [|r rooms IH]; simpl; run;
          [constructor|].
        rewrite store_calls_app, Forall_app.
        assert (exec (if decide (r ≠ socketId)
                      then io_to_emit r (user_status user offline)
                      else skip) st' = st') as -> by (case_decide; by run).
        split; [case_decide; run; constructor|exact IH]. }
      rewrite store_calls_app, Forall_app. split.
      + destruct (truthy (data_userAddress data)) as [user|]; run; [|constructor].
        case_decide; run; [|constructor].
        destruct (registry_online _ _); run; [constructor|].
        rewrite store_calls_app, Forall_app. split; [|apply Hloop].
        destruct (truthy (data_roomId data)); run; constructor.
      + destruct (truthy (data_roomId data)) as [room|]; run; [|constructor].
        case_decide; run; [|constructor].
        destruct (truthy (data_userAddress data)); run; constructor. }
  assert (∀ st, Forall ok (stored st) →
                Forall ok (stored (exec (event_loop events) st))) as Hall.
  { induction events as [|e events IH]; intros st Hst.
    - unfold event_loop. simpl. by run.
    - unfold event_loop. simpl. run. fold (event_loop events).
      apply IH.
      destruct (handle_appends_to_store e st) as (added & Hcol & Hsub).
      unfold stored in *. rewrite Hcol.
      destruct (chatMessagesCollection st) as [docs|]; simpl in *; [|constructor].
      apply Forall_app. split; [done|].
      apply Forall_forall. intros d Hd.
      specialize (Hcalls e st). rewrite Forall_forall in Hcalls.
      apply Hcalls. by eapply elem_of_sublist. }
  apply Hall. unfold stored. destruct connected; simpl; constructor.
Qed.

(** * The chat window *)

(** ** Sorting the messages *)

Lemma Array_sort_insert_perm {A} (cmp : A → A → Z) (x : A) (l : list A) :
  Array_sort_insert cmp x l ≡ₚ x :: l.
Proof.
  induction l as [|y l IH]; simpl; [done|].
  case_bool_decide; [|done]. rewrite IH. apply Permutation_swap.
Qed.

Lemma Array_sort_perm {A} (cmp : A → A → Z) (l : list A) :
  Array_sort cmp l ≡ₚ l.
Proof.
  induction l as [|x l IH]; simpl; [done|].
  fold (Array_sort cmp l). by rewrite Array_sort_insert_perm, IH.
Qed.

Lemma msg_le_trans : Transitive msg_le.
Proof. intros a b c. unfold msg_le. lia. Qed.

Lemma by_time_insert_sorted (x : ChatMessage.t) (l : list ChatMessage.t) :
  StronglySorted msg_le l →
  StronglySorted msg_le (Array_sort_insert Chat.by_time x l).
Proof.
  induction 1 as [|y l Hl IH Hy]; simpl; [by repeat constructor|].
  case_bool_decide as Hcmp; unfold Chat.by_time in Hcmp.
  - constructor; [done|].
    rewrite Array_sort_insert_perm. constructor; [unfold msg_le; lia|done].
  - constructor; [by constructor|].
    constructor; [unfold msg_le; lia|].
    eapply Forall_impl; [exact Hy|]. intros z Hz. unfold msg_le in *. lia.
Qed.

Lemma by_time_sort_sorted (l : list ChatMessage.t) :
  StronglySorted msg_le (Array_sort Chat.by_time l).
Proof.
  induction l as [|x l IH]; simpl; [constructor|].
  by apply by_time_insert_sorted.
Qed.

(** Sorting an ordered list changes nothing. *)
Lemma by_time_sort_sorted_id (l : list ChatMessage.t) :
  StronglySorted msg_le l → Array_sort Chat.by_time l = l.
Proof.
  induction 1 as [|x l Hl IH Hx]; simpl; [done|].
  fold (Array_sort Chat.by_time l). rewrite IH.
  destruct l as [|y l]; simpl; [done|].
  rewrite bool_decide_eq_false_2; [done|].
  apply Forall_cons in Hx as [Hxy _]. unfold msg_le, Chat.by_time in *. lia.
Qed.

Lemma filter_none {A} (P : A → Prop) `{∀ x, Decision (P x)} (l : list A) :
  Forall (λ x, ¬ P x) l → filter P l = [].
Proof.
  induction 1 as [|x l Hx Hl IH]; [done|].
  by rewrite filter_cons, decide_False.
Qed.

Lemma filter_all {A} (P : A → Prop) `{∀ x, Decision (P x)} (l : list A) :
  Forall P l → filter P l = l.
Proof.
  induction 1 as [|x l Hx Hl IH]; [done|].
  by rewrite filter_cons, decide_True, IH.
Qed.

(** Appending a message to an ordered list and sorting puts it after
    every message that is not later than it. *)
Lemma by_time_sort_snoc (m : ChatMessage.t) (l : list ChatMessage.t) :
  StronglySorted msg_le l →
  Array_sort Chat.by_time (l ++ [m])
  = filter (λ x, ChatMessage.timestamp x ≤ ChatMessage.timestamp m) l
    ++ m :: filter (λ x, ChatMessage.timestamp m < ChatMessage.timestamp x) l.
Proof.
  unfold Array_sort. rewrite foldr_app. simpl.
  induction 1 as [|x l Hl IH Hx]; simpl; [done|].
  rewrite IH, !filter_cons.
  destruct (decide (ChatMessage.timestamp x ≤ ChatMessage.timestamp m)) as [Hle|Hgt].
  - rewrite decide_False by lia. simpl.
    destruct (filter (λ x0, ChatMessage.timestamp x0 ≤ ChatMessage.timestamp m) l)
      as [|y l'] eqn:Hf; simpl.
    + rewrite bool_decide_eq_false_2; [done|]. unfold Chat.by_time. lia.
    + rewrite bool_decide_eq_false_2; [done|].
      assert (y ∈ l) as Hy.
      { apply (list_elem_of_filter
                 (λ x0, ChatMessage.timestamp x0 ≤ ChatMessage.timestamp m) l y).
        rewrite Hf. by left. }
      rewrite Forall_forall in Hx. specialize (Hx y Hy).
      unfold msg_le, Chat.by_time in *. lia.
  - rewrite decide_True by lia.
    assert (filter (λ x0, ChatMessage.timestamp x0 ≤ ChatMessage.timestamp m) l = [])
      as ->.
    { apply filter_none. rewrite Forall_forall in Hx |- *.
      intros y Hy Hym. specialize (Hx y Hy). unfold msg_le in *. lia. }
    assert (filter (λ x0, ChatMessage.timestamp m < ChatMessage.timestamp x0) l = l)
      as ->.
    { apply filter_all. rewrite Forall_forall in Hx |- *.
      intros y Hy. specialize (Hx y Hy). unfold msg_le in *. lia. }
    simpl. rewrite bool_decide_eq_true_2 by (unfold Chat.by_time; lia).
    f_equal. destruct l as [|y l]; simpl; [done|].
    rewrite bool_decide_eq_false_2; [done|].
    apply Forall_cons in Hx as [Hxy _]. unfold msg_le, Chat.by_time in *. lia.
Qed.

(** ** History and live messages *)

(** X11: [handleHistory] shows the history it receives in timestamp
    order, whatever was shown before and without losing or inventing a
    message; the history the server sends on join is already in that
    order, so the window shows it exactly as sent. *)
Theorem history_shown_in_order (history prev : list ChatMessage.t)
    (env : Env) (room : string) (st : Server) :
  StronglySorted msg_le (Chat.handleHistory history prev)
  ∧ Chat.handleHistory history prev ≡ₚ history
  ∧ Chat.handleHistory (result (loadChatFromDB env room) st) prev
    = result (loadChatFromDB env room) st.
Proof.
  unfold Chat.handleHistory. split; [apply by_time_sort_sorted|].
  split; [apply Array_sort_perm|].
  apply by_time_sort_sorted_id, loaded_sorted.
Qed.

Lemma existsb_same_id (m : ChatMessage.t) (l : list ChatMessage.t) :
  existsb (λ x, bool_decide (ChatMessage.id x = ChatMessage.id m)) l = true
  ↔ ChatMessage.id m ∈ ChatMessage.id <$> l.
Proof.
  rewrite existsb_exists, list_elem_of_fmap. split.
  - intros (x & Hx & Hid). apply bool_decide_eq_true in Hid.
    exists x. split; [done|]. by apply list_elem_of_In.
  - intros (x & Hid & Hx). exists x. split; [by apply list_elem_of_In|].
    by apply bool_decide_eq_true.
Qed.

Lemma count_id_absent (k : string) (l : list ChatMessage.t) :
  k ∉ ChatMessage.id <$> l →
  filter (λ x, ChatMessage.id x = k) l = [].
Proof.
  intros Hk. apply filter_none, Forall_forall. intros x Hx Hid.
  apply Hk, list_elem_of_fmap. by exists x.
Qed.

Lemma count_id_once (k : string) (l : list ChatMessage.t) :
  NoDup (ChatMessage.id <$> l) → k ∈ ChatMessage.id <$> l →
  length (filter (λ x, ChatMessage.id x = k) l) = 1%nat.
Proof.
  induction l as [|x l IH]; simpl; [by intros _ ?%elem_of_nil|].
  intros [Hx Hl]%NoDup_cons Hk. rewrite filter_cons.
  destruct (decide (ChatMessage.id x = k)) as [<-|Hne].
  - simpl. by rewrite count_id_absent.
  - apply elem_of_cons in Hk as [?|Hk]; [congruence|]. by apply IH.
Qed.

(** X12: a message is never shown twice. Delivering a message whose id
    is already in the list leaves the list as it is, so [handleMessage]
    is idempotent; and from a list without repeated ids the result has no
    repeated id and holds exactly one message with the id delivered. *)
Theorem duplicate_message_shown_once (message : ChatMessage.t)
    (prev : list ChatMessage.t) :
  NoDup (ChatMessage.id <$> prev) →
  NoDup (ChatMessage.id <$> Chat.handleMessage message prev)
  ∧ Chat.handleMessage message (Chat.handleMessage message prev)
    = Chat.handleMessage message prev
  ∧ length (filter (λ m, ChatMessage.id m = ChatMessage.id message)
                   (Chat.handleMessage message prev)) = 1%nat.
Proof.
  intros Hnodup. unfold Chat.handleMessage at 1 3 4 5.
  destruct (existsb _ prev) eqn:Hdup.
  - apply existsb_same_id in Hdup as Hin.
    split; [done|]. split.
    + unfold Chat.handleMessage. by rewrite Hdup.
    + by apply count_id_once.
  - assert (ChatMessage.id message ∉ ChatMessage.id <$> prev) as Hnot.
    { intros Hin%existsb_same_id. congruence. }
    assert (Array_sort Chat.by_time (prev ++ [message]) ≡ₚ message :: prev)
      as Hperm by (rewrite Array_sort_perm; apply Permutation_app_comm).
    split; [|split].
    + rewrite Hperm. simpl. by apply NoDup_cons.
    + unfold Chat.handleMessage.
      assert (existsb (λ m, bool_decide (ChatMessage.id m = ChatMessage.id message))
                (Array_sort Chat.by_time (prev ++ [message])) = true) as ->; [|done].
      apply existsb_same_id. rewrite Hperm. simpl. by left.
    + rewrite Hperm, filter_cons, decide_True by done. simpl.
      by rewrite count_id_absent.
Qed.

Lemma duplicate_message_shown_once_witness :
  let m1 := ChatMessage.mk "1000abc" "hi" "a" 1000 "text" None in
  let m2 := ChatMessage.mk "900xyz" "yo" "b" 900 "text" None in
  NoDup (ChatMessage.id <$> [m2])
  ∧ Chat.handleMessage m1 (Chat.handleMessage m1 [m2])
    = Chat.handleMessage m1 [m2].
Proof.
  intros m1 m2.
  assert (NoDup (ChatMessage.id <$> [m2])) as Hnodup
    by (apply NoDup_singleton).
  split; [done|].
  by destruct (duplicate_message_shown_once m1 [m2] Hnodup) as (_ & ? & _).
Defined.

(** X13: a message with a new id is placed by its timestamp. In a list
    already in timestamp order it goes after every message that is not
    later than it (also after those with the same timestamp) and before
    the later ones, and the list stays in order. *)
Theorem new_message_placed_by_time (message : ChatMessage.t)
    (prev : list ChatMessage.t) :
  StronglySorted msg_le prev →
  ChatMessage.id message ∉ ChatMessage.id <$> prev →
  Chat.handleMessage message prev
  = filter (λ m, ChatMessage.timestamp m ≤ ChatMessage.timestamp message) prev
    ++ message
       :: filter (λ m, ChatMessage.timestamp message < ChatMessage.timestamp m) prev
  ∧ StronglySorted msg_le (Chat.handleMessage message prev).
Proof.
  intros Hsorted Hnew. unfold Chat.handleMessage.
  assert (existsb (λ m, bool_decide (ChatMessage.id m = ChatMessage.id message))
            prev = false) as ->.
  { destruct (existsb _ prev) eqn:Hdup; [|done].
    by apply existsb_same_id in Hdup. }
  split; [by apply by_time_sort_snoc|apply by_time_sort_sorted].
Qed.

Lemma new_message_placed_by_time_witness :
  let m1 := ChatMessage.mk "1" "one" "a" 10 "text" None in
  let m2 := ChatMessage.mk "2" "two" "b" 20 "text" None in
  let m3 := ChatMessage.mk "3" "late" "a" 30 "text" None in
  let m := ChatMessage.mk "4" "same time as two" "a" 20 "text" None in
  (StronglySorted msg_le [m1; m2; m3]
   ∧ ChatMessage.id m ∉ ChatMessage.id <$> [m1; m2; m3])
  ∧ Chat.handleMessage m [m1; m2; m3] = [m1; m2; m; m3].
Proof.
  intros m1 m2 m3 m.
  assert (StronglySorted msg_le [m1; m2; m3]) as Hs.
  { repeat constructor; unfold msg_le; simpl; lia. }
  assert (ChatMessage.id m ∉ ChatMessage.id <$> [m1; m2; m3]) as Hn.
  { apply (bool_decide_unpack (ChatMessage.id m ∉ ChatMessage.id <$> [m1; m2; m3])).
    vm_compute. exact I. }
  split; [done|].
  destruct (new_message_placed_by_time m [m1; m2; m3] Hs Hn) as [-> _].
  reflexivity.
Defined.

(** ** Sending a message *)

Lemma Number_toString_head (n : Z) :
  ∃ c rest, JS.Number_toString n = String c rest ∧ c ≠ "t"%char.
Proof.
  unfold JS.Number_toString.
  destruct (Z.to_int n) as [d|d]; simpl.
  - destruct d; simpl; eexists _, _; (split; [reflexivity|done]).
  - eexists _, _. split; [reflexivity|done].
Qed.

(** The id the server gives a message is never a temporary id of the
    window. *)
Lemma server_id_not_temporary (n n' : Z) (suffix : string) :
  JS.Number_toString n +:+ suffix ≠ "temp-" +:+ JS.Number_toString n'.
Proof.
  destruct (Number_toString_head n) as (c & rest & -> & Hc).
  simpl. intros Heq. injection Heq as Heq _. done.
Qed.



Lemma roomId_nonempty (w : Chat.Window) (a : string) :
  Chat.address w = Some a → a ≠ "" → Chat.otherUser w ≠ "" →
  Chat.roomId w = createRoomId a (Chat.otherUser w) ∧ Chat.roomId w ≠ "".
Proof.
  intros Ha Hne Ho. unfold Chat.roomId. rewrite Ha.
  rewrite !bool_decide_eq_true_2 by done. simpl.
  split; [done|apply createRoomId_nonempty].
Qed.


(** X15: the sender sees their own message twice. [sendMessage] shows a
    temporary copy at once, under an id starting with ["temp-"]; the
    server sends the message to the members of the room, among them the
    sender's own socket, under an id that starts with the digits of its
    clock; the two ids are never equal, so [handleMessage] does not
    recognise the broadcast as a duplicate and the window holds both
    copies. *)
Theorem own_message_shown_twice (clock clock' : Z) (w : Chat.Window) (a : string)
    (env : Env) (socketId : string) (st : Server) :
  JS.ascii_string (Chat.inputMessage w) = true →
  Chat.address w = Some a → a ≠ "" → Chat.otherUser w ≠ "" →
  Chat.socket_connected w = Some true →
  trim (Chat.inputMessage w) ≠ "" →
  socketId ∈ room_members (Chat.roomId w) st →
  JS.Number_toString (now env) +:+ random env
    ∉ ChatMessage.id <$> Chat.messages w →
  let text := trim (Chat.inputMessage w) in
  let sent := Chat.sendMessage clock clock' w in
  let echo := chat_messageObj env text (JS.toLowerCase a) (Some clock) None in
  let shown := Chat.handleMessage echo (Chat.messages sent.1) in
  let same (m : ChatMessage.t) :=
    ChatMessage.message m = text ∧ ChatMessage.sender m = JS.toLowerCase a
    ∧ ChatMessage.timestamp m = clock in
  (∃ e recipients,
     last sent.2 = Some e
     ∧ (to_room (Chat.roomId w), recipients, chat_message echo)
       ∈ emitted (effects (handle (Chat.delivered env socketId e)) st)
     ∧ socketId ∈ recipients)
  ∧ length shown = S (S (length (Chat.messages w)))
  ∧ length (filter same shown) = S (S (length (filter same (Chat.messages w)))).
Proof.
  intros _ Ha Hne Ho Hconn Htext Hmember Hfresh text sent echo shown same.
  destruct (roomId_nonempty w a Ha Hne Ho) as [_ Hroom].
  split.
  { exists (Chat.emit_chat_message (Chat.roomId w) text (JS.toLowerCase a) clock),
           (room_members (Chat.roomId w) st).
    split_and!; [|  |done].
    - unfold sent, Chat.sendMessage. rewrite Hconn, Ha.
      rewrite !bool_decide_eq_false_2 by done. cbn [orb negb snd].
      by rewrite last_snoc.
    - cbn [handle Chat.delivered].
      rewrite effects_on_chat_message;
        [|done|by apply toLowerCase_nonempty|done].
      rewrite toLowerCase_idemp. fold echo.
      rewrite !emitted_app. apply elem_of_app. right.
      apply elem_of_app. right. apply elem_of_app. left. simpl. by left. }
  set (temp := ChatMessage.mk ("temp-" +:+ JS.Number_toString clock')
                 text (JS.toLowerCase a) clock "text" None).
  assert (Chat.messages sent.1 = Array_sort Chat.by_time (Chat.messages w ++ [temp]))
    as Hmsgs.
  { unfold sent, Chat.sendMessage. rewrite Hconn, Ha.
    by rewrite !bool_decide_eq_false_2 by done. }
  assert (Chat.messages sent.1 ≡ₚ temp :: Chat.messages w) as Hperm1.
  { rewrite Hmsgs, Array_sort_perm. apply Permutation_app_comm. }
  assert (shown ≡ₚ echo :: temp :: Chat.messages w) as Hperm.
  { unfold shown, Chat.handleMessage.
    assert (existsb (λ m, bool_decide (ChatMessage.id m = ChatMessage.id echo))
              (Chat.messages sent.1) = false) as ->.
    { destruct (existsb _ _) eqn:Hdup; [|done].
      apply existsb_same_id in Hdup. rewrite Hperm1 in Hdup. simpl in Hdup.
      apply elem_of_cons in Hdup as [Hdup|Hdup]; [|done].
      by apply server_id_not_temporary in Hdup. }
    rewrite Array_sort_perm, Hperm1. apply Permutation_app_comm. }
  split.
  - by rewrite Hperm.
  - rewrite Hperm, !filter_cons.
    rewrite !decide_True by (by unfold same). done.
Qed.

Lemma own_message_shown_twice_witness :
  let w := Chat.mkWindow (Some "0xAB") "0xCD" (Some true) [] "  hello " true in
  let env := mkEnv 1000 "k3x" true in
  let st := exec (connect "s1" ;;
                  on_join_room env "s1" (Some "0xab_0xcd") (Some "0xab"))
                 (initial (Some [])) in
  (JS.ascii_string (Chat.inputMessage w) = true
   ∧ Chat.address w = Some "0xAB" ∧ "0xAB" ≠ "" ∧ Chat.otherUser w ≠ ""
   ∧ Chat.socket_connected w = Some true ∧ trim (Chat.inputMessage w) ≠ ""
   ∧ "s1" ∈ room_members (Chat.roomId w) st
   ∧ JS.Number_toString (now env) +:+ random env
       ∉ ChatMessage.id <$> Chat.messages w)
  ∧ length (Chat.handleMessage
              (chat_messageObj env (trim (Chat.inputMessage w))
                 (JS.toLowerCase "0xAB") (Some 990) None)
              (Chat.messages (Chat.sendMessage 990 991 w).1))
    = S (S (length (Chat.messages w))).
Proof.
  intros w env st.
  assert (JS.Number_toString (now env) +:+ random env
            ∉ ChatMessage.id <$> Chat.messages w) as Hfresh
    by (simpl; apply not_elem_of_nil).
  assert ("s1" ∈ room_members (Chat.roomId w) st) as Hmember.
  { apply (bool_decide_unpack ("s1" ∈ room_members (Chat.roomId w) st)).
    vm_compute. exact I. }
  split; [by repeat split|].
  by destruct (own_message_shown_twice 990 991 w "0xAB" env "s1" st)
    as (_ & ? & _).
Defined.


(** * The conversations of a user *)

Lemma by_lastUpdated_insert_sorted (x : Conversation.t) (l : list Conversation.t) :
  StronglySorted later_first l →
  StronglySorted later_first (Array_sort_insert by_lastUpdated x l).
Proof.
  induction 1 as [|y l Hl IH Hy]; simpl; [by repeat constructor|].
  case_bool_decide as Hcmp; unfold by_lastUpdated in Hcmp.
  - constructor; [done|].
    rewrite Array_sort_insert_perm. constructor; [unfold later_first; lia|done].
  - constructor; [by constructor|].
    constructor; [unfold later_first; lia|].
    eapply Forall_impl; [exact Hy|]. intros z Hz. unfold later_first in *. lia.
Qed.

Lemma by_lastUpdated_sort_sorted (l : list Conversation.t) :
  StronglySorted later_first (Array_sort by_lastUpdated l).
Proof.
  induction l as [|x l IH]; simpl; [constructor|].
  by apply by_lastUpdated_insert_sorted.
Qed.

Lemma result_getUserConversationsFromDB (env : Env) (userAddress : string)
    (st : Server) :
  result (getUserConversationsFromDB env userAddress) st =
    match chatMessagesCollection st with
    | Some docs =>
        if store_ok env then
          Array_sort by_lastUpdated
            (omap (conversation_of userAddress docs)
                  (distinct_roomId (JS.toLowerCase userAddress) docs))
        else []
    | None => []
    end.
Proof.
  unfold getUserConversationsFromDB. run.
  destruct (chatMessagesCollection st); [destruct (store_ok env)|]; by run.
Qed.

Lemma conversation_of_Some (userAddress : string) (docs : list Doc)
    (roomId : string) (c : Conversation.t) :
  conversation_of userAddress docs roomId = Some c →
  ∃ last,
    findOne_latest roomId docs = Some last
    ∧ Conversation.roomId c = roomId
    ∧ Conversation.lastMessage c = doc_fields last
    ∧ Conversation.lastUpdated c = ChatMessage.timestamp (doc_fields last)
    ∧ Conversation.messageCount c = countDocuments roomId docs
    ∧ Conversation.otherUser c ≠ ""
    ∧ Conversation.otherUser c ∈ JS.split "_" roomId.
Proof.
  unfold conversation_of.
  destruct (JS.split "_" roomId) as [|user1 [|user2 rest]]; try done.
  destruct (bool_decide (user1 = "") || bool_decide (user2 = "")) eqn:Hempty;
    [done|].
  apply orb_false_elim in Hempty as [H1 H2].
  apply bool_decide_eq_false in H1, H2.
  destruct (findOne_latest roomId docs) as [last|]; [|done].
  intros [= <-]. exists last. simpl. split_and!; try done.
  - by case_decide.
  - case_decide; set_solver.
Qed.

Lemma omap_roomId_sublist (userAddress : string) (docs : list Doc)
    (rooms : list string) :
  Conversation.roomId <$> omap (conversation_of userAddress docs) rooms
  `sublist_of` rooms.
Proof.
  induction rooms as [|r rooms IH]; simpl; [done|].
  destruct (conversation_of userAddress docs r) as [c|] eqn:Hc; simpl.
  - apply conversation_of_Some in Hc as (_ & _ & -> & _).
    by apply sublist_skip.
  - by apply sublist_cons.
Qed.

(** The newest document of a room, as [findOne] with the descending sort
    finds it. *)
Lemma findOne_latest_Some (roomId : string) (docs : list Doc) (last : Doc) :
  findOne_latest roomId docs = Some last →
  last ∈ docs ∧ doc_roomId last = roomId
  ∧ ∀ d, d ∈ docs → doc_roomId d = roomId →
         ChatMessage.timestamp (doc_fields d)
         ≤ ChatMessage.timestamp (doc_fields last).
Proof.
  unfold findOne_latest.
  set (room := filter (λ d, doc_roomId d = roomId) docs).
  intros Hhead.
  assert (StronglySorted by_timestamp_desc (merge_sort by_timestamp_desc room))
    as Hsorted.
  { apply StronglySorted_merge_sort.
    - intros a b c. unfold by_timestamp_desc. lia.
    - intros a b. unfold by_timestamp_desc. lia. }
  assert (merge_sort by_timestamp_desc room ≡ₚ room) as Hperm
    by apply merge_sort_Permutation.
  destruct (merge_sort by_timestamp_desc room) as [|x l] eqn:Hl; [done|].
  injection Hhead as ->.
  assert (last ∈ room) as Hin by (rewrite <- Hperm; by left).
  apply list_elem_of_filter in Hin as [Hr Hin].
  split_and!; [done..|].
  intros d Hd Hdr.
  assert (d ∈ last :: l) as Hdl.
  { rewrite Hperm. by apply list_elem_of_filter. }
  apply StronglySorted_inv in Hsorted as [_ Hall].
  apply elem_of_cons in Hdl as [->|Hdl]; [lia|].
  rewrite Forall_forall in Hall. by apply Hall.
Qed.

(** X16: the conversation list of a user, for an address of letters and
    digits, is ordered by the time of the last message, latest first, has one entry per room at most, and
    every entry is for a room of the store in which the user sent a
    message or whose name contains the user's lowercased address; the
    other party named by the entry is a non-empty part of the room
    name. The query changes nothing, and the list is empty without a
    store or when the store fails. *)
Theorem conversations_latest_first (env : Env) (userAddress : string)
    (st : Server) :
  alphanumeric userAddress = true →
  let conversations := result (getUserConversationsFromDB env userAddress) st in
  exec (getUserConversationsFromDB env userAddress) st = st
  ∧ StronglySorted later_first conversations
  ∧ NoDup (Conversation.roomId <$> conversations)
  ∧ Forall (λ c, ∃ d, d ∈ stored st
                      ∧ doc_roomId d = Conversation.roomId c
                      ∧ participant (JS.toLowerCase userAddress) d
                      ∧ Conversation.otherUser c ≠ ""
                      ∧ Conversation.otherUser c
                        ∈ JS.split "_" (Conversation.roomId c))
           conversations
  ∧ (chatMessagesCollection st = None ∨ store_ok env = false →
     conversations = []).
Proof.
  intros _ conversations. subst conversations.
  rewrite result_getUserConversationsFromDB.
  split.
  { unfold getUserConversationsFromDB. run.
    destruct (chatMessagesCollection st); [destruct (store_ok env)|]; by run. }
  unfold stored.
  destruct (chatMessagesCollection st) as [docs|]; simpl;
    [|split_and!; try constructor; done].
  destruct (store_ok env); [|split_and!; try constructor; done].
  set (user := JS.toLowerCase userAddress).
  split_and!.
  - apply by_lastUpdated_sort_sorted.
  - rewrite Array_sort_perm.
    eapply sublist_NoDup; [apply NoDup_remove_dups|].
    apply omap_roomId_sublist.
  - apply Forall_forall. intros c Hc.
    rewrite Array_sort_perm in Hc.
    apply list_elem_of_omap in Hc as (room & Hroom & Hc).
    apply conversation_of_Some in Hc as (_ & _ & -> & _ & _ & _ & Hne & Hpart).
    unfold distinct_roomId in Hroom.
    apply elem_of_remove_dups, list_elem_of_fmap in Hroom as (d & -> & Hd).
    apply list_elem_of_filter in Hd as [Hp Hd].
    by exists d.
  - by intros [?|?].
Qed.

Lemma conversations_latest_first_witness :
  let env := mkEnv 1000 "k3x" true in
  let m1 := ChatMessage.mk "1k" "hi" "0xab" 10 "text" None in
  let m2 := ChatMessage.mk "2k" "yo" "0xcd" 30 "text" None in
  let m3 := ChatMessage.mk "3k" "ok" "0xab" 20 "text" None in
  let st := initial (Some [mkDoc "0xab_0xcd" m1; mkDoc "0xab_0xcd" m2;
                           mkDoc "0xab_0xef" m3]) in
  alphanumeric "0xAB" = true
  ∧ result (getUserConversationsFromDB env "0xAB") st
    = [Conversation.mk "0xab_0xcd" "0xcd" m2 30 2;
       Conversation.mk "0xab_0xef" "0xef" m3 20 1]
  ∧ StronglySorted later_first
      (result (getUserConversationsFromDB env "0xAB") st).
Proof.
  intros env m1 m2 m3 st.
  split; [reflexivity|]. split; [vm_compute; reflexivity|].
  by destruct (conversations_latest_first env "0xAB" st eq_refl) as (_ & ? & _).
Defined.

(** X17: every entry of the conversation list agrees with the history
    [join-room] sends for its room: the message count is the length of
    the history and is positive, the last message is a message of the
    history, and no message of the history is later than it, so that
    the time of the last message of the history is the [lastUpdated] of
    the entry. *)
Theorem conversation_agrees_with_history (env : Env) (userAddress : string)
    (st : Server) :
  alphanumeric userAddress = true →
  Forall (λ c,
      let history := result (loadChatFromDB env (Conversation.roomId c)) st in
      Conversation.messageCount c = length history
      ∧ (0 < Conversation.messageCount c)%nat
      ∧ Conversation.lastMessage c ∈ history
      ∧ ChatMessage.timestamp (Conversation.lastMessage c)
        = Conversation.lastUpdated c
      ∧ Forall (λ m, ChatMessage.timestamp m ≤ Conversation.lastUpdated c) history
      ∧ ∃ m, last history = Some m
             ∧ ChatMessage.timestamp m = Conversation.lastUpdated c)
    (result (getUserConversationsFromDB env userAddress) st).
Proof.
  intros _. rewrite result_getUserConversationsFromDB.
  destruct (chatMessagesCollection st) as [docs|] eqn:Hcol; [|constructor].
  destruct (store_ok env) eqn:Hok; [|constructor].
  apply Forall_forall. intros c Hc.
  rewrite Array_sort_perm in Hc.
  apply list_elem_of_omap in Hc as (room & _ & Hc).
  apply conversation_of_Some in Hc as (latest & Hlast & -> & -> & -> & -> & _).
  apply findOne_latest_Some in Hlast as (Hin & Hroom & Hmax).
  cbv zeta. rewrite result_loadChatFromDB, Hcol, Hok.
  assert (latest ∈ find_sorted room docs) as Hmem.
  { rewrite find_sorted_perm. by apply list_elem_of_filter. }
  assert (Forall (λ m, ChatMessage.timestamp m
                       ≤ ChatMessage.timestamp (doc_fields latest))
                 (doc_fields <$> find_sorted room docs)) as Hall.
  { apply Forall_fmap, Forall_forall. intros d Hd. simpl.
    rewrite find_sorted_perm in Hd. apply list_elem_of_filter in Hd as [Hr Hd].
    by apply Hmax. }
  assert (countDocuments room docs = length (doc_fields <$> find_sorted room docs))
    as Hcount.
  { unfold countDocuments. by rewrite length_fmap, find_sorted_perm. }
  split_and!.
  - done.
  - rewrite Hcount, length_fmap.
    destruct (find_sorted room docs); [by apply elem_of_nil in Hmem|simpl; lia].
  - apply list_elem_of_fmap. by exists latest.
  - done.
  - done.
  - pose proof (find_sorted_sorted room docs) as Hsorted.
    destruct (last (doc_fields <$> find_sorted room docs)) as [m|] eqn:Hl.
    + exists m. split; [done|].
      rewrite fmap_last in Hl.
      destruct (last (find_sorted room docs)) as [d|] eqn:Hld; [|done].
      injection Hl as <-.
      apply last_Some in Hld as (l' & Hl').
      assert (d ∈ find_sorted room docs) as Hd by (rewrite Hl'; set_solver).
      assert (ChatMessage.timestamp (doc_fields d)
              ≤ ChatMessage.timestamp (doc_fields latest)) as Hle.
      { rewrite find_sorted_perm in Hd.
        apply list_elem_of_filter in Hd as [Hr Hd]. by apply Hmax. }
      rewrite Hl' in Hsorted, Hmem.
      apply elem_of_app in Hmem as [Hmem|Hmem].
      * assert (by_timestamp latest d) as Hld2.
        { eapply StronglySorted_app_1_elem_of; [exact Hsorted|done|by left]. }
        unfold by_timestamp in Hld2. lia.
      * apply list_elem_of_singleton in Hmem as ->. done.
    + apply last_None in Hl. apply fmap_nil_inv in Hl.
      rewrite Hl in Hmem. by apply elem_of_nil in Hmem.
Qed.

Lemma conversation_agrees_with_history_witness :
  let env := mkEnv 1000 "k3x" true in
  let m1 := ChatMessage.mk "1k" "hi" "0xab" 10 "text" None in
  let m2 := ChatMessage.mk "2k" "yo" "0xcd" 30 "text" None in
  let st := initial (Some [mkDoc "0xab_0xcd" m2; mkDoc "0xab_0xcd" m1]) in
  alphanumeric "0xAB" = true
  ∧ Forall (λ c,
        let history := result (loadChatFromDB env (Conversation.roomId c)) st in
        Conversation.messageCount c = length history
        ∧ (0 < Conversation.messageCount c)%nat
        ∧ Conversation.lastMessage c ∈ history
        ∧ ChatMessage.timestamp (Conversation.lastMessage c)
          = Conversation.lastUpdated c
        ∧ Forall (λ m, ChatMessage.timestamp m ≤ Conversation.lastUpdated c)
                 history
        ∧ ∃ m, last history = Some m
               ∧ ChatMessage.timestamp m = Conversation.lastUpdated c)
      (result (getUserConversationsFromDB env "0xAB") st).
Proof.
  intros env m1 m2 st. split; [reflexivity|].
  exact (conversation_agrees_with_history env "0xAB" st eq_refl).
Defined.

(** * The listings API *)

Lemma or_string_nonempty (x : option string) (d : string) :
  d ≠ "" → Listings.or_string x d ≠ "".
Proof.
  intros Hd. unfold Listings.or_string.
  destruct x as [s|]; [|done]. by case_bool_decide.
Qed.

Lemma or_string_idemp (x : option string) (d : string) :
  Listings.or_string (Some (Listings.or_string x d)) d = Listings.or_string x d.
Proof.
  unfold Listings.or_string.
  destruct x as [s|]; repeat case_bool_decide; done.
Qed.

Lemma or_number_nonzero (x : option Z) (d : Z) :
  d ≠ 0 → Listings.or_number x d ≠ 0.
Proof.
  intros Hd. unfold Listings.or_number.
  destruct x as [n|]; [|done]. by case_bool_decide.
Qed.

Lemma or_number_idemp (x : option Z) (d : Z) :
  Listings.or_number (Some (Listings.or_number x d)) d = Listings.or_number x d.
Proof.
  unfold Listings.or_number.
  destruct x as [n|]; repeat case_bool_decide; done.
Qed.

Lemma by_createdAt_desc_trans : Transitive Listings.by_createdAt_desc.
Proof.
  intros a b c. unfold Listings.by_createdAt_desc, Listings.created_le.
  destruct (Listings.createdAt a), (Listings.createdAt b),
           (Listings.createdAt c); try done; lia.
Qed.

Lemma by_createdAt_desc_total : Total Listings.by_createdAt_desc.
Proof.
  intros a b. unfold Listings.by_createdAt_desc, Listings.created_le.
  destruct (Listings.createdAt a), (Listings.createdAt b); try (by left);
    try (by right). lia.
Qed.

(** X18: [GET /api/listings] always answers 200 and never changes the
    store. With a working store it shows every stored document once;
    every listing it shows has a title, a rate other than 0 and an
    owner; listings with a creation date come first, the latest first,
    and those without one after them. Without a store, or when the
    query fails, the list is empty. *)
Theorem listings_complete_newest_first (env : Listings.Env)
    (store : Listings.Store) :
  ∃ listings log,
    Listings.get_listings env store
    = (Listings.mkResponse 200 (Listings.listings_json listings), store, log)
    ∧ Forall (λ l, Listings.l_title l ≠ "" ∧ Listings.l_ratePerHour l ≠ 0
                   ∧ Listings.l_owner l ≠ "") listings
    ∧ StronglySorted Listings.newest_first listings
    ∧ listings ≡ₚ (if Listings.store_ok env
                   then Listings.view env <$> default [] store else []).
Proof.
  unfold Listings.get_listings, Listings.getAllListingsFromDB.
  destruct store as [docs|]; simpl.
  2: { eexists [], _. split; [done|]. split_and!; try constructor.
       by destruct (Listings.store_ok env). }
  destruct (Listings.store_ok env).
  2: { eexists [], _. split; [done|]. split_and!; constructor. }
  eexists _, _. split; [done|]. split_and!.
  - apply Forall_fmap, Forall_forall. intros d _. simpl. split_and!.
    + by apply or_string_nonempty.
    + by apply or_number_nonzero.
    + by apply or_string_nonempty.
  - eapply StronglySorted_fmap;
      [|apply StronglySorted_merge_sort;
        [apply by_createdAt_desc_trans|apply by_createdAt_desc_total]].
    intros d1 d2. unfold Listings.by_createdAt_desc, Listings.created_le,
      Listings.newest_first. simpl.
    destruct (Listings.createdAt d1), (Listings.createdAt d2),
             (Listings.timestamp d1), (Listings.timestamp d2); done.
  - by rewrite merge_sort_Permutation.
Qed.

(** X19: a listing created through [POST /api/listings] is shown by a
    later [GET /api/listings] with the values the [POST] answered: the
    identifier, the seven fields after defaulting, and the creation
    date. The store gains exactly that one document. *)
Theorem posted_listing_is_listed (env env' : Listings.Env)
    (body : Listings.Fields) (docs : list Listings.Document) :
  Listings.store_ok env = true →
  Listings.store_ok env' = true →
  ∃ saved document,
    Listings.post_listing env body (Some docs)
    = (Listings.mkResponse 200
         (Listings.created_json (Listings.insertedId env) saved),
       Some (docs ++ [document]), [])
    ∧ Listings.s_cid saved = Listings.insertedId env
    ∧ Listings.s_createdAt saved = Listings.Date (Listings.now env)
    ∧ Listings.view env' document = Listings.listed saved
    ∧ ∃ listings log,
        Listings.getAllListingsFromDB env' (Some (docs ++ [document]))
        = (listings, log)
        ∧ Listings.listed saved ∈ listings
        ∧ length listings = S (length docs).
Proof.
  intros Hok Hok'.
  unfold Listings.post_listing, Listings.saveListingToDB. rewrite Hok.
  eexists _, _. split; [reflexivity|].
  split; [done|]. split; [done|].
  assert (Listings.view env'
            {| Listings._id := Listings.ObjectId (Listings.insertedId env);
               Listings.cid := None;
               Listings.fields :=
                 {| Listings.title :=
                      Some (Listings.or_string
                              (Listings.title (Listings.with_defaults body))
                              "Untitled Service");
                    Listings.description :=
                      Some (Listings.or_string
                              (Listings.description (Listings.with_defaults body)) "");
                    Listings.category :=
                      Some (Listings.or_string
                              (Listings.category (Listings.with_defaults body)) "");
                    Listings.ratePerHour :=
                      Some (Listings.or_number
                              (Listings.ratePerHour (Listings.with_defaults body)) 1);
                    Listings.contactMethod :=
                      Some (Listings.or_string
                              (Listings.contactMethod (Listings.with_defaults body)) "");
                    Listings.skills :=
                      Some (Listings.array_or_empty
                              (Listings.skills (Listings.with_defaults body)));
                    Listings.owner :=
                      Some (Listings.or_string
                              (Listings.owner (Listings.with_defaults body))
                              "unknown") |};
               Listings.createdAt := Some (Listings.now env);
               Listings.timestamp := Some (Listings.now env) |}
          = Listings.listed
              {| Listings.s_title :=
                   Listings.or_string
                     (Listings.title (Listings.with_defaults body))
                     "Untitled Service";
                 Listings.s_description :=
                   Listings.or_string
                     (Listings.description (Listings.with_defaults body)) "";
                 Listings.s_category :=
                   Listings.or_string
                     (Listings.category (Listings.with_defaults body)) "";
                 Listings.s_ratePerHour :=
                   Listings.or_number
                     (Listings.ratePerHour (Listings.with_defaults body)) 1;
                 Listings.s_contactMethod :=
                   Listings.or_string
                     (Listings.contactMethod (Listings.with_defaults body)) "";
                 Listings.s_skills :=
                   Listings.array_or_empty
                     (Listings.skills (Listings.with_defaults body));
                 Listings.s_owner :=
                   Listings.or_string
                     (Listings.owner (Listings.with_defaults body)) "unknown";
                 Listings.s_createdAt := Listings.Date (Listings.now env);
                 Listings.s_timestamp := Listings.ISOString (Listings.now env);
                 Listings.s_id := Listings.ObjectId (Listings.insertedId env);
                 Listings.s_cid := Listings.insertedId env |}) as Hview.
  { unfold Listings.view, Listings.listed.
    cbn [Listings._id Listings.cid Listings.fields Listings.createdAt
         Listings.timestamp Listings.title Listings.description
         Listings.category Listings.ratePerHour Listings.contactMethod
         Listings.skills Listings.owner Listings.s_title
         Listings.s_description Listings.s_category Listings.s_ratePerHour
         Listings.s_contactMethod Listings.s_skills Listings.s_owner
         Listings.s_createdAt Listings.s_cid Listings.Id_toString].
    rewrite !or_string_idemp, or_number_idemp. reflexivity. }
  split; [exact Hview|].
  unfold Listings.getAllListingsFromDB. rewrite Hok'.
  eexists _, _. split; [reflexivity|]. split.
  - rewrite <- Hview. apply list_elem_of_fmap. eexists. split; [done|].
    rewrite merge_sort_Permutation. set_solver.
  - by rewrite length_fmap, merge_sort_Permutation, length_app, Nat.add_1_r.
Qed.

Lemma posted_listing_is_listed_witness :
  let env := Listings.mkEnv 1000 "65f0c0ffee" true in
  let env' := Listings.mkEnv 2000 "65f0c0ffef" true in
  let body := Listings.mkFields (Some "Guitar lessons") None None (Some 0) None
                                None (Some "0xAb") in
  (Listings.store_ok env = true ∧ Listings.store_ok env' = true)
  ∧ ∃ saved document,
      Listings.post_listing env body (Some [])
      = (Listings.mkResponse 200
           (Listings.created_json (Listings.insertedId env) saved),
         Some ([] ++ [document]), [])
      ∧ Listings.s_cid saved = Listings.insertedId env
      ∧ Listings.s_createdAt saved = Listings.Date (Listings.now env)
      ∧ Listings.view env' document = Listings.listed saved
      ∧ ∃ listings log,
          Listings.getAllListingsFromDB env' (Some ([] ++ [document]))
          = (listings, log)
          ∧ Listings.listed saved ∈ listings
          ∧ length listings = S (length (@nil Listings.Document)).
Proof.
  intros env env' body.
  split; [by split|].
  apply (posted_listing_is_listed env env' body []); reflexivity.
Defined.

(** ** Deleting *)

Lemma findOne_None (cid : string) (docs : list Listings.Document) :
  Forall (λ d, ¬ Listings.selected cid d) docs → Listings.findOne cid docs = None.
Proof.
  induction 1 as [|d docs Hd Hdocs IH]; simpl; [done|].
  by rewrite decide_False.
Qed.

Lemma findOne_deleteOne (cid : string) (docs : list Listings.Document)
    (listing : Listings.Document) :
  Listings.findOne cid docs = Some listing →
  ∃ before after,
    docs = before ++ listing :: after
    ∧ Listings.deleteOne cid docs = before ++ after
    ∧ Listings.selected cid listing
    ∧ Forall (λ d, ¬ Listings.selected cid d) before.
Proof.
  induction docs as [|d docs IH]; simpl; [done|].
  destruct (decide (Listings.selected cid d)) as [Hd|Hd].
  - intros [= ->]. exists [], docs. by split_and!.
  - intros Hfind. destruct (IH Hfind) as (before & after & -> & -> & Hsel & Hbefore).
    exists (d :: before), after. split_and!; try done. by constructor.
Qed.

Lemma created_by_api_not_selected (cid : string) (d : Listings.Document) :
  Listings.created_by_api d → ¬ Listings.selected cid d.
Proof.
  intros [Hcid [hex Hid]] [Hsel|Hsel]; [by rewrite Hcid in Hsel|].
  by rewrite Hid in Hsel.
Qed.

Lemma serve_created_by_api (env : Listings.Env) (request : Listings.Request)
    (store : Listings.Store) :
  Forall Listings.created_by_api (default [] store) →
  Forall Listings.created_by_api
         (default [] (Listings.serve env request store).1.2)
  ∧ (is_Some (Listings.serve env request store).1.2 ↔ is_Some store).
Proof.
  intros Hall. destruct request as [|body|cid owner]; simpl.
  - unfold Listings.get_listings.
    by destruct (Listings.getAllListingsFromDB env store).
  - unfold Listings.post_listing, Listings.saveListingToDB.
    destruct store as [docs|]; [|done].
    destruct (Listings.store_ok env); simpl; [|done].
    split; [|by split].
    apply Forall_app. split; [done|].
    apply Forall_cons_2; [|apply Forall_nil_2].
    split; [done|]. by eexists.
  - unfold Listings.delete_listing.
    destruct store as [docs|]; [|done].
    destruct (Listings.store_ok env); [|done].
    rewrite findOne_None; [done|].
    eapply Forall_impl; [exact Hall|].
    intros d. apply created_by_api_not_selected.
Qed.

Lemma serve_all_created_by_api (requests : list (Listings.Env * Listings.Request))
    (store : Listings.Store) :
  Forall Listings.created_by_api (default [] store) →
  Forall Listings.created_by_api
         (default [] (Listings.serve_all requests store))
  ∧ (is_Some (Listings.serve_all requests store) ↔ is_Some store).
Proof.
  revert store. induction requests as [|[env request] requests IH];
    intros store Hall; simpl; [done|].
  destruct (serve_created_by_api env request store Hall) as [Hall' Hsome].
  destruct (IH _ Hall') as [Hall'' Hsome'].
  split; [done|]. by rewrite <- Hsome.
Qed.

(** X20: a listing created through the API cannot be deleted through
    it. The stored document has an [ObjectId] as [_id] and no [cid]
    field, and the filter of [DELETE /api/listings/:cid] compares both
    with the string of the route. So, on a store that started empty and
    was only written by this API, every [DELETE] answers 404 (500 when
    the store is not connected or fails) and leaves the store as it
    is, whatever requests came before and whatever [cid] and [owner] it
    names. *)
Theorem created_listings_cannot_be_deleted (connected : bool)
    (requests : list (Listings.Env * Listings.Request))
    (env : Listings.Env) (cid : string) (owner : option string) :
  let store := Listings.serve_all requests (if connected then Some [] else None) in
  let answer :=
    if connected then
      if Listings.store_ok env then
        (Listings.mkResponse 404 (Listings.error_json "Listing not found"), [])
      else
        (Listings.mkResponse 500 (Listings.error_json "Failed to delete listing"),
         [(error, "[Listings] Delete failed:")])
    else
      (Listings.mkResponse 500 (Listings.error_json "MongoDB not connected"), []) in
  Listings.serve env (Listings.DELETE_listings cid owner) store
  = (answer.1, store, answer.2).
Proof.
  intros store answer. subst answer.
  destruct (serve_all_created_by_api requests
              (if connected then Some [] else None)) as [Hall Hsome].
  { destruct connected; constructor. }
  fold store in Hall, Hsome.
  simpl. unfold Listings.delete_listing.
  destruct connected.
  - destruct store as [docs|]; [|by destruct (proj2 Hsome (mk_is_Some _ _ eq_refl))].
    simpl in Hall.
    destruct (Listings.store_ok env); [|done].
    rewrite findOne_None; [done|].
    eapply Forall_impl; [exact Hall|].
    intros d. apply created_by_api_not_selected.
  - destruct store as [docs|]; [|done].
    by destruct (proj1 Hsome (mk_is_Some _ _ eq_refl)).
Qed.

(** X21: [DELETE /api/listings/:cid] removes one document or none. When
    it answers 200 it has removed the first stored document selected by
    [cid], and nothing else; that happens only when the request names
    no owner, or the listing has no known owner, or the two are equal up
    to letter case. With any other answer the store is unchanged. *)
Theorem delete_removes_one_listing (env : Listings.Env) (cid : string)
    (owner : option string) (docs : list Listings.Document)
    (response : Listings.Response) (store' : Listings.Store) (log : Listings.Log) :
  Listings.delete_listing env cid owner (Some docs) = (response, store', log) →
  if decide (Listings.status response = 200%nat) then
    ∃ before listing after,
      docs = before ++ listing :: after
      ∧ store' = Some (before ++ after)
      ∧ Listings.selected cid listing
      ∧ Forall (λ d, ¬ Listings.selected cid d) before
      ∧ (JS.falsy owner = true
         ∨ JS.falsy (Listings.owner (Listings.fields listing)) = true
         ∨ Listings.owner (Listings.fields listing) = Some "unknown"
         ∨ JS.toLowerCase <$> Listings.owner (Listings.fields listing)
           = JS.toLowerCase <$> owner)
  else store' = Some docs.
Proof.
  unfold Listings.delete_listing.
  destruct (Listings.store_ok env); [|by intros [= <- <- <-]].
  destruct (Listings.findOne cid docs) as [listing|] eqn:Hfind;
    [|by intros [= <- <- <-]].
  destruct (Listings.refused owner listing) eqn:Hrefused;
    intros [= <- <- <-]; simpl; [done|].
  destruct (findOne_deleteOne cid docs listing Hfind)
    as (before & after & Hdocs & Hdel & Hsel & Hbefore).
  exists before, listing, after. split_and!; try done; [by rewrite Hdel|].
  unfold Listings.refused in Hrefused.
  destruct owner as [o|]; [|by left].
  destruct (Listings.owner (Listings.fields listing)) as [lo|]; [|by right; left].
  simpl. repeat case_bool_decide; simpl in *; try done;
    first [by left | by right; left | by right; right; left; congruence
          | by right; right; right; congruence].
Qed.

Lemma delete_removes_one_listing_witness :
  let env := Listings.mkEnv 1000 "65f0c0ffee" true in
  let old := Listings.mkDocument (Listings.ObjectId "65f0c0ffe0") (Some "Qm1")
               (Listings.mkFields (Some "Guitar lessons") None None None None
                                  None (Some "0xAb"))
               None None in
  Listings.delete_listing env "Qm1" (Some "0xaB") (Some [old])
  = (Listings.mkResponse 200 (Listings.success_json "Listing deleted"),
     Some [], [])
  ∧ ∃ before listing after,
      [old] = before ++ listing :: after
      ∧ Some [] = Some (before ++ after)
      ∧ Listings.selected "Qm1" listing
      ∧ Forall (λ d, ¬ Listings.selected "Qm1" d) before
      ∧ (JS.falsy (Some "0xaB") = true
         ∨ JS.falsy (Listings.owner (Listings.fields listing)) = true
         ∨ Listings.owner (Listings.fields listing) = Some "unknown"
         ∨ JS.toLowerCase <$> Listings.owner (Listings.fields listing)
           = JS.toLowerCase <$> Some "0xaB").
Proof.
  intros env old.
  assert (Listings.delete_listing env "Qm1" (Some "0xaB") (Some [old])
          = (Listings.mkResponse 200 (Listings.success_json "Listing deleted"),
             Some [], [])) as Hrun by (vm_compute; reflexivity).
  split; [exact Hrun|].
  exact (delete_removes_one_listing env "Qm1" (Some "0xaB") [old] _ _ _ Hrun).
Defined.

(** * The escrow contract *)


Lemma locked_insert_fresh (n : Z) (m : gmap Z Escrow) (escrowId : Z) (e : Escrow) :
  m !! escrowId = None →
  locked (mkStorage n (<[escrowId := e]> m))
  = (if active e then amount e else 0) + locked (mkStorage n m).
Proof.
  intros Hfresh. unfold locked. simpl.
  rewrite map_fold_insert_L; [done| |done]. intros. lia.
Qed.

Lemma locked_update (n : Z) (m : gmap Z Escrow) (escrowId : Z) (e e' : Escrow) :
  m !! escrowId = Some e →
  locked (mkStorage n (<[escrowId := e']> m))
  = locked (mkStorage n m)
    - (if active e then amount e else 0) + (if active e' then amount e' else 0).
Proof.
  intros Hold. unfold locked. simpl.
  rewrite <- insert_delete_eq.
  rewrite map_fold_insert_L; [| intros; lia | apply lookup_delete_eq].
  rewrite (map_fold_delete_L _ _ escrowId e m); [lia| intros; lia | done].
Qed.

(** An escrow that is active is a stored one. *)
Lemma active_stored (s : Storage) (escrowId : Z) :
  active (escrow_at s escrowId) = true →
  escrows s !! escrowId = Some (escrow_at s escrowId).
Proof.
  unfold escrow_at. by destruct (escrows s !! escrowId).
Qed.

Lemma sane_weaken (n n' escrowId : Z) (e : Escrow) :
  n ≤ n' → sane n escrowId e → sane n' escrowId e.
Proof. unfold sane. intros ? (? & ? & ? & ? & ?). repeat split; try done; lia. Qed.

(** What a successful [createEscrow] did. *)
Lemma createEscrow_inv sender ok prov amt (s : Storage) (r : Receipt) :
  createEscrow sender ok prov amt s = Some r →
  prov ≠ 0 ∧ prov ≠ sender ∧ 0 < amt ∧ ok = true
  ∧ nextEscrowId s ≠ uint256_max
  ∧ r = mkReceipt
          (mkStorage (nextEscrowId s + 1)
             (<[nextEscrowId s := mkEscrow sender prov amt false false true]>
                (escrows s)))
          [transferFrom sender amt]
          [EscrowCreated (nextEscrowId s) sender prov amt]
          (Some (nextEscrowId s)).
Proof.
  unfold createEscrow. intros Htx.
  destruct (bool_decide (prov ≠ 0) && bool_decide (prov ≠ sender)) eqn:Hp;
    [|done].
  destruct (bool_decide (0 < amt)) eqn:Ha; [|done].
  destruct ok; [|done].
  destruct (bool_decide (nextEscrowId s = uint256_max)) eqn:Hmax; [done|].
  simpl in Htx. injection Htx as <-.
  apply andb_true_iff in Hp as [Hp0 Hps].
  apply bool_decide_eq_true in Hp0, Hps, Ha.
  apply bool_decide_eq_false in Hmax. by repeat split.
Qed.

(** What a successful [confirm] did: the caller is a party of an active
    escrow, its flag is set, and the escrow is released to the provider
    exactly when both flags are then set. *)
Lemma confirm_inv sender ok escrowId (s : Storage) (r : Receipt) :
  confirm sender ok escrowId s = Some r →
  let e := escrow_at s escrowId in
  ∃ e',
    escrows s !! escrowId = Some e
    ∧ active e = true
    ∧ post r = mkStorage (nextEscrowId s) (<[escrowId := e']> (escrows s))
    ∧ requester e' = requester e ∧ provider e' = provider e
    ∧ amount e' = amount e
    ∧ (sender = requester e
       ∧ requesterConfirmed e' = true
       ∧ providerConfirmed e' = providerConfirmed e
       ∨ sender ≠ requester e ∧ sender = provider e
         ∧ requesterConfirmed e' = requesterConfirmed e
         ∧ providerConfirmed e' = true)
    ∧ active e' = negb (requesterConfirmed e' && providerConfirmed e')
    ∧ calls r = (if active e' then [] else [transfer (provider e) (amount e)])
    ∧ (active e' = false → ok = true).
Proof.
  intros Htx e. unfold confirm in Htx. fold e in Htx.
  destruct (active e) eqn:Hact; [|done].
  apply active_stored in Hact as Hst. fold e in Hst.
  simpl in Htx.
  assert (∀ e1 : Escrow,
            release ok escrowId
              (mkStorage (nextEscrowId s) (<[escrowId := e1]> (escrows s)))
            = if negb ok then None
              else Some (mkStorage (nextEscrowId s)
                           (<[escrowId := mkEscrow (requester e1) (provider e1)
                                            (amount e1) (requesterConfirmed e1)
                                            (providerConfirmed e1) false]>
                              (escrows s)),
                         [transfer (provider e1) (amount e1)],
                         [Released escrowId (provider e1) (amount e1)]))
    as Hrel.
  { intros e1. unfold release, escrow_at. simpl.
    rewrite lookup_insert_eq. simpl. by rewrite insert_insert_eq. }
  destruct (bool_decide (sender = requester e)) eqn:Hreq;
    [apply bool_decide_eq_true in Hreq|apply bool_decide_eq_false in Hreq];
    simpl in Htx.
  - destruct (providerConfirmed e) eqn:Hpc; simpl in Htx.
    + rewrite Hrel in Htx. destruct ok; [|done]. simpl in Htx.
      injection Htx as <-.
      exists (mkEscrow (requester e) (provider e) (amount e) true true false).
      split_and!; simpl; rewrite ?Hact, ?Hpc, ?Hrc; try done;
        try (by left); try (by right).
    + injection Htx as <-.
      exists (mkEscrow (requester e) (provider e) (amount e) true false true).
      split_and!; simpl; rewrite ?Hact, ?Hpc, ?Hrc; try done;
        try (by left); try (by right).
  - destruct (bool_decide (sender = provider e)) eqn:Hprov; [|done].
    apply bool_decide_eq_true in Hprov. simpl in Htx.
    destruct (requesterConfirmed e) eqn:Hrc; simpl in Htx.
    + rewrite Hrel in Htx. destruct ok; [|done]. simpl in Htx.
      injection Htx as <-.
      exists (mkEscrow (requester e) (provider e) (amount e) true true false).
      split_and!; simpl; rewrite ?Hact, ?Hpc, ?Hrc; try done;
        try (by left); try (by right).
    + injection Htx as <-.
      exists (mkEscrow (requester e) (provider e) (amount e) false true true).
      split_and!; simpl; rewrite ?Hact, ?Hpc, ?Hrc; try done;
        try (by left); try (by right).
Qed.

(** What a successful [cancel] did: the requester of an active escrow
    that the provider has not confirmed takes the amount back. *)
Lemma cancel_inv sender ok escrowId (s : Storage) (r : Receipt) :
  cancel sender ok escrowId s = Some r →
  let e := escrow_at s escrowId in
  escrows s !! escrowId = Some e
  ∧ active e = true ∧ sender = requester e ∧ providerConfirmed e = false
  ∧ ok = true
  ∧ post r = mkStorage (nextEscrowId s)
               (<[escrowId := mkEscrow (requester e) (provider e) (amount e)
                                 (requesterConfirmed e) false false]>
                  (escrows s))
  ∧ calls r = [transfer (requester e) (amount e)].
Proof.
  intros Htx e. unfold cancel in Htx. fold e in Htx.
  destruct (active e) eqn:Hact; [|done].
  apply active_stored in Hact as Hst. fold e in Hst. simpl in Htx.
  destruct (bool_decide (sender = requester e)) eqn:Hreq; [|done].
  apply bool_decide_eq_true in Hreq. simpl in Htx.
  destruct (providerConfirmed e) eqn:Hpc; [done|].
  destruct ok; [|done]. simpl in Htx. injection Htx as <-.
  by repeat split.
Qed.

(** Every transaction keeps the storage well formed. *)
Lemma transact_well_formed (c : Call) (s : Storage) (r : Receipt) :
  well_formed s → transact c s = Some r → well_formed (post r).
Proof.
  intros [Hn Hwf] Htx. destruct c as [sender ok prov amt|sender ok id|sender ok id];
    simpl in Htx.
  - apply createEscrow_inv in Htx as (Hp0 & Hps & Ha & _ & _ & ->). simpl.
    split; [simpl; lia|]. simpl.
    apply map_Forall_insert_2.
    + unfold sane. simpl. repeat split; try done; lia.
    + eapply map_Forall_impl; [exact Hwf|].
      intros k e He. eapply sane_weaken; [|exact He]. lia.
  - apply confirm_inv in Htx
      as (e' & Hst & Hact & -> & Hr & Hp & Ha & _ & Hact' & _).
    destruct (Hwf id _ Hst) as (Hid & Hamt & Hp0 & Hpr & Hboth).
    split; [done|]. simpl.
    apply map_Forall_insert_2; [|done].
    unfold sane. rewrite Hr, Hp, Ha, Hact'. repeat split; try done; try lia.
    by destruct (requesterConfirmed e' && providerConfirmed e').
  - apply cancel_inv in Htx as (Hst & Hact & _ & Hpc & _ & -> & _).
    destruct (Hwf id _ Hst) as (Hid & Hamt & Hp0 & Hpr & Hboth).
    split; [done|]. simpl.
    apply map_Forall_insert_2; [|done].
    unfold sane. simpl. rewrite andb_false_r. repeat split; try done; lia.
Qed.

Lemma constructor_well_formed : well_formed constructor.
Proof. split; [simpl; lia|]. apply map_Forall_empty. Qed.

Lemma chain_well_formed (cs : list Call) (s : Storage) :
  well_formed s → well_formed (chain cs s).1.
Proof.
  revert s. induction cs as [|c cs IH]; intros s Hwf; simpl; [done|].
  destruct (transact c s) as [r|] eqn:Htx; [|by apply IH].
  specialize (IH (post r) (transact_well_formed c s r Hwf Htx)).
  by destruct (chain cs (post r)).
Qed.

(** X22: whatever transactions are sent to the contract after its
    deployment, reverted ones included, every escrow it stores has an id
    between 1 and [nextEscrowId - 1], a positive amount, a provider that
    is neither the zero address nor the requester, and is inactive once
    both parties have confirmed. *)
Theorem escrows_stay_well_formed (cs : list Call) :
  let s := (chain cs constructor).1 in
  1 ≤ nextEscrowId s
  ∧ map_Forall (λ escrowId e,
        1 ≤ escrowId < nextEscrowId s
        ∧ 0 < amount e
        ∧ provider e ≠ 0
        ∧ provider e ≠ requester e
        ∧ (requesterConfirmed e && providerConfirmed e && active e = false))
      (escrows s).
Proof. apply (chain_well_formed cs constructor), constructor_well_formed. Qed.

Lemma held_app (l1 l2 : list TokenCall) : held (l1 ++ l2) = held l1 + held l2.
Proof.
  induction l1 as [|c l1 IH]; simpl; [lia|].
  fold (held (l1 ++ l2)) (held l1). rewrite IH. destruct c; lia.
Qed.

Lemma escrow_at_insert (n escrowId : Z) (e : Escrow) (m : gmap Z Escrow) :
  escrow_at (mkStorage n (<[escrowId := e]> m)) escrowId = e.
Proof. unfold escrow_at. simpl. by rewrite lookup_insert_eq. Qed.

Lemma well_formed_fresh (s : Storage) :
  well_formed s → escrows s !! nextEscrowId s = None.
Proof.
  intros [_ Hwf]. destruct (escrows s !! nextEscrowId s) as [e|] eqn:He; [|done].
  destruct (Hwf _ _ He) as [? _]. lia.
Qed.

Lemma transact_conserves (c : Call) (s : Storage) (r : Receipt) :
  well_formed s → transact c s = Some r →
  locked (post r) = locked s + held (calls r).
Proof.
  intros Hwf Htx. destruct s as [n m].
  destruct c as [sender ok prov amt|sender ok id|sender ok id]; simpl in Htx.
  - apply createEscrow_inv in Htx as (_ & _ & _ & _ & _ & ->). simpl.
    rewrite locked_insert_fresh by apply (well_formed_fresh _ Hwf).
    unfold locked. simpl. lia.
  - apply confirm_inv in Htx
      as (e' & Hst & Hact & -> & _ & _ & Ha & _ & _ & -> & _).
    simpl in *. rewrite (locked_update _ _ _ _ _ Hst), Hact, Ha.
    unfold locked. destruct (active e'); simpl; lia.
  - apply cancel_inv in Htx as (Hst & Hact & _ & _ & _ & -> & ->).
    simpl in *. rewrite (locked_update _ _ _ _ _ Hst), Hact.
    unfold locked. simpl. lia.
Qed.

Lemma chain_conserves (cs : list Call) (s : Storage) :
  well_formed s → locked (chain cs s).1 = locked s + held (chain cs s).2.
Proof.
  revert s. induction cs as [|c cs IH]; intros s Hwf; simpl; [lia|].
  destruct (transact c s) as [r|] eqn:Htx; [|by apply IH].
  specialize (IH (post r) (transact_well_formed c s r Hwf Htx)).
  destruct (chain cs (post r)) as [s' later]. simpl in *.
  rewrite held_app, IH, (transact_conserves c s r Hwf Htx). lia.
Qed.

(** X23: the contract holds exactly what it owes. After any transactions
    since deployment, the tokens pulled into the contract minus the tokens
    it paid out equal the sum of the amounts of the escrows that are still
    active: nothing is paid twice, and no active escrow is left without
    its funds. *)
Theorem escrow_funds_conserved (cs : list Call) :
  held (chain cs constructor).2 = locked (chain cs constructor).1.
Proof.
  rewrite (chain_conserves cs constructor constructor_well_formed).
  unfold locked at 1. simpl. rewrite map_fold_empty. lia.
Qed.

(** A transaction never rewrites the parties or the amount of a stored
    escrow, never reactivates it and never clears a confirmation. *)
Lemma transact_monotone (c : Call) (s : Storage) (r : Receipt)
    (escrowId : Z) (e : Escrow) :
  well_formed s → transact c s = Some r → escrows s !! escrowId = Some e →
  ∃ e', escrows (post r) !! escrowId = Some e'
      ∧ requester e' = requester e ∧ provider e' = provider e
      ∧ amount e' = amount e
      ∧ (active e = false → active e' = false)
      ∧ (requesterConfirmed e = true → requesterConfirmed e' = true)
      ∧ (providerConfirmed e = true → providerConfirmed e' = true).
Proof.
  intros Hwf Htx He.
  destruct c as [sender ok prov amt|sender ok id|sender ok id]; simpl in Htx.
  - apply createEscrow_inv in Htx as (_ & _ & _ & _ & _ & ->). simpl.
    exists e. rewrite lookup_insert_ne; [by repeat split|].
    intros Heq. rewrite <- Heq, (well_formed_fresh _ Hwf) in He. done.
  - apply confirm_inv in Htx
      as (e' & Hst & Hact & -> & Hr & Hp & Ha & Hflag & Hact' & _).
    simpl. destruct (decide (escrowId = id)) as [->|Hne].
    + rewrite Hst in He. injection He as <-.
      exists e'. rewrite lookup_insert_eq.
      split_and!; try done; [congruence|..];
        destruct Hflag as [(_ & ? & ?)|(_ & _ & ? & ?)]; congruence.
    + exists e. rewrite lookup_insert_ne by done. by repeat split.
  - apply cancel_inv in Htx as (Hst & Hact & _ & Hpc & _ & -> & _).
    simpl. destruct (decide (escrowId = id)) as [->|Hne].
    + rewrite Hst in He. injection He as <-.
      eexists. rewrite lookup_insert_eq.
      split_and!; simpl; try done. congruence.
    + exists e. rewrite lookup_insert_ne by done. by repeat split.
Qed.

Lemma chain_monotone (cs : list Call) (s : Storage) (escrowId : Z) (e : Escrow) :
  well_formed s → escrows s !! escrowId = Some e →
  ∃ e', escrows (chain cs s).1 !! escrowId = Some e'
      ∧ requester e' = requester e ∧ provider e' = provider e
      ∧ amount e' = amount e
      ∧ (active e = false → active e' = false)
      ∧ (requesterConfirmed e = true → requesterConfirmed e' = true)
      ∧ (providerConfirmed e = true → providerConfirmed e' = true).
Proof.
  revert s e. induction cs as [|c cs IH]; intros s e Hwf He; simpl.
  - exists e. by repeat split.
  - destruct (transact c s) as [r|] eqn:Htx; [|by apply IH].
    destruct (transact_monotone c s r escrowId e Hwf Htx He)
      as (e1 & He1 & Hr1 & Hp1 & Ha1 & Hact1 & Hrc1 & Hpc1).
    destruct (IH (post r) e1 (transact_well_formed c s r Hwf Htx) He1)
      as (e2 & He2 & Hr2 & Hp2 & Ha2 & Hact2 & Hrc2 & Hpc2).
    destruct (chain cs (post r)) as [s' later]. simpl in *.
    exists e2. split_and!; try done; try congruence; auto.
Qed.

(** X24: an escrow only moves forward. Once the contract has stored an
    escrow, no later transaction changes its requester, its provider or
    its amount; an escrow that is inactive is never active again; and a
    confirmation, once given, is never withdrawn. *)
Theorem escrow_only_moves_forward (before after : list Call) (escrowId : Z)
    (e : Escrow) :
  escrows (chain before constructor).1 !! escrowId = Some e →
  ∃ e', escrows (chain after (chain before constructor).1).1 !! escrowId = Some e'
      ∧ requester e' = requester e ∧ provider e' = provider e
      ∧ amount e' = amount e
      ∧ (active e = false → active e' = false)
      ∧ (requesterConfirmed e = true → requesterConfirmed e' = true)
      ∧ (providerConfirmed e = true → providerConfirmed e' = true).
Proof.
  intros He. apply chain_monotone; [|done].
  apply chain_well_formed, constructor_well_formed.
Qed.

Lemma escrow_only_moves_forward_witness :
  let before := [call_createEscrow 7 true 9 50; call_confirm 9 true 1] in
  let after := [call_cancel 7 true 1; call_confirm 7 true 1; call_confirm 9 true 1] in
  escrows (chain before constructor).1 !! 1 = Some (mkEscrow 7 9 50 false true true)
  ∧ ∃ e', escrows (chain after (chain before constructor).1).1 !! 1 = Some e'
        ∧ requester e' = 7 ∧ provider e' = 9 ∧ amount e' = 50
        ∧ (true = false → active e' = false)
        ∧ (false = true → requesterConfirmed e' = true)
        ∧ (true = true → providerConfirmed e' = true).
Proof.
  intros before after.
  assert (escrows (chain before constructor).1 !! 1
          = Some (mkEscrow 7 9 50 false true true)) as He
    by (vm_compute; reflexivity).
  split; [done|].
  exact (escrow_only_moves_forward before after 1 _ He).
Defined.

(** X25: tokens leave the contract only to settle an escrow. A
    transaction that pays [to] the amount [a] closes an escrow that was
    active and whose amount is [a]: either both parties have confirmed
    and [to] is its provider, or the call is a [cancel] by its requester
    before the provider confirmed and [to] is that requester. Tokens
    enter only through [createEscrow], from the caller, for the amount of
    the escrow it opens. *)
Theorem payments_settle_an_escrow (c : Call) (s : Storage) (r : Receipt) :
  transact c s = Some r →
  Forall (λ call,
    match call with
    | transfer to a =>
        ∃ escrowId,
          let e := escrow_at s escrowId in
          let e' := escrow_at (post r) escrowId in
          calls r = [call] ∧ active e = true ∧ active e' = false ∧ a = amount e
          ∧ (to = provider e
             ∧ requesterConfirmed e' = true ∧ providerConfirmed e' = true
             ∨ to = requester e ∧ providerConfirmed e = false
               ∧ c = call_cancel (requester e) true escrowId)
    | transferFrom from a =>
        ∃ prov,
          c = call_createEscrow from true prov a
          ∧ escrow_at (post r) (nextEscrowId s)
            = mkEscrow from prov a false false true
    end) (calls r).
Proof.
  intros Htx. destruct c as [sender ok prov amt|sender ok id|sender ok id];
    simpl in Htx.
  - apply createEscrow_inv in Htx as (_ & _ & _ & -> & _ & ->). simpl.
    apply Forall_cons_2; [|apply Forall_nil_2].
    exists prov. split; [done|]. apply escrow_at_insert.
  - apply confirm_inv in Htx
      as (e' & Hst & Hact & Hpost & Hr & Hp & Ha & Hflag & Hact' & Hcalls & _).
    rewrite Hcalls. destruct (active e') eqn:He'; [apply Forall_nil_2|].
    apply Forall_cons_2; [|apply Forall_nil_2].
    exists id. cbv zeta. rewrite Hpost, escrow_at_insert.
    symmetry in Hact'. apply negb_false_iff, andb_true_iff in Hact' as [? ?].
    split_and!; try done. by left.
  - apply cancel_inv in Htx as (Hst & Hact & -> & Hpc & -> & Hpost & Hcalls).
    rewrite Hcalls. apply Forall_cons_2; [|apply Forall_nil_2].
    exists id. cbv zeta. rewrite Hpost, escrow_at_insert. simpl.
    split_and!; try done. by right.
Qed.

Lemma payments_settle_an_escrow_witness :
  let s := mkStorage 2 {[1 := mkEscrow 7 9 50 false true true]} in
  let c := call_confirm 7 true 1 in
  let r := mkReceipt (mkStorage 2 {[1 := mkEscrow 7 9 50 true true false]})
                     [transfer 9 50] [Confirmed 1 7; Released 1 9 50] None in
  transact c s = Some r
  ∧ Forall (λ call,
      match call with
      | transfer to a =>
          ∃ escrowId,
            let e := escrow_at s escrowId in
            let e' := escrow_at (post r) escrowId in
            calls r = [call] ∧ active e = true ∧ active e' = false ∧ a = amount e
            ∧ (to = provider e
               ∧ requesterConfirmed e' = true ∧ providerConfirmed e' = true
               ∨ to = requester e ∧ providerConfirmed e = false
                 ∧ c = call_cancel (requester e) true escrowId)
      | transferFrom from a =>
          ∃ prov,
            c = call_createEscrow from true prov a
            ∧ escrow_at (post r) (nextEscrowId s)
              = mkEscrow from prov a false false true
      end) (calls r).
Proof.
  intros s c r.
  assert (transact c s = Some r) as Htx by (vm_compute; reflexivity).
  split; [done|].
  exact (payments_settle_an_escrow c s r Htx).
Defined.

(** X26: once the provider has confirmed, the requester cannot take the
    funds back: whatever happens afterwards, [cancel] reverts for that
    escrow, for every caller. *)
Theorem provider_confirmation_is_binding (before after : list Call)
    (escrowId sender : Z) (token_ok : bool) :
  providerConfirmed (escrow_at (chain before constructor).1 escrowId) = true →
  cancel sender token_ok escrowId (chain after (chain before constructor).1).1
  = None.
Proof.
  intros Hpc.
  set (s := (chain before constructor).1) in *.
  assert (escrows s !! escrowId = Some (escrow_at s escrowId)) as He.
  { unfold escrow_at in *. by destruct (escrows s !! escrowId). }
  destruct (chain_monotone after s escrowId _
              (chain_well_formed before constructor constructor_well_formed) He)
    as (e' & He' & _ & _ & _ & _ & _ & Hpc').
  unfold cancel, escrow_at. rewrite He'. simpl.
  rewrite (Hpc' Hpc).
  destruct (active e'); simpl; [|done].
  by destruct (bool_decide (sender = requester e')).
Qed.

Lemma provider_confirmation_is_binding_witness :
  let before := [call_createEscrow 7 true 9 50; call_confirm 9 true 1] in
  providerConfirmed (escrow_at (chain before constructor).1 1) = true
  ∧ cancel 7 true 1 (chain [] (chain before constructor).1).1 = None.
Proof.
  intros before.
  assert (providerConfirmed (escrow_at (chain before constructor).1 1) = true)
    as Hpc by (vm_compute; reflexivity).
  split; [done|].
  exact (provider_confirmation_is_binding before [] 1 7 true Hpc).
Defined.

(** X27: when both parties confirm an active escrow that nobody has
    confirmed yet, in either order, the provider is paid the amount of
    the escrow, once, by the second confirmation, and the escrow is
    closed; the first confirmation moves no token. *)
Theorem both_confirmations_release (s : Storage) (escrowId : Z)
    (ok1 : bool) :
  let e := escrow_at s escrowId in
  active e = true → requesterConfirmed e = false → providerConfirmed e = false →
  requester e ≠ provider e →
  let closed := mkEscrow (requester e) (provider e) (amount e) true true false in
  chain [call_confirm (requester e) ok1 escrowId;
         call_confirm (provider e) true escrowId] s
  = (mkStorage (nextEscrowId s) (<[escrowId := closed]> (escrows s)),
     [transfer (provider e) (amount e)])
  ∧ chain [call_confirm (provider e) ok1 escrowId;
           call_confirm (requester e) true escrowId] s
    = (mkStorage (nextEscrowId s) (<[escrowId := closed]> (escrows s)),
       [transfer (provider e) (amount e)]).
Proof.
  intros e Hact Hrc Hpc Hne closed.
  assert (∀ e1, confirm (requester e) true escrowId
                  (mkStorage (nextEscrowId s) (<[escrowId := e1]> (escrows s)))
                = confirm (requester e) true escrowId
                    (mkStorage (nextEscrowId s) (<[escrowId := e1]> (escrows s))))
    as _ by done.
  split; simpl; unfold confirm; fold e; rewrite Hact, Hrc, Hpc; simpl.
  - rewrite bool_decide_eq_true_2 by done. simpl.
    rewrite escrow_at_insert. simpl.
    rewrite (bool_decide_eq_false_2 (provider e = requester e)) by congruence.
    rewrite bool_decide_eq_true_2 by done. simpl.
    unfold release. rewrite escrow_at_insert. simpl.
    by rewrite !insert_insert_eq.
  - rewrite (bool_decide_eq_false_2 (provider e = requester e)) by congruence.
    rewrite bool_decide_eq_true_2 by done. simpl.
    rewrite escrow_at_insert. simpl.
    rewrite bool_decide_eq_true_2 by done. simpl.
    unfold release. rewrite escrow_at_insert. simpl.
    by rewrite !insert_insert_eq.
Qed.

Lemma both_confirmations_release_witness :
  let s := (chain [call_createEscrow 7 true 9 50] constructor).1 in
  let e := escrow_at s 1 in
  (active e = true ∧ requesterConfirmed e = false ∧ providerConfirmed e = false
   ∧ requester e ≠ provider e)
  ∧ chain [call_confirm (requester e) false 1; call_confirm (provider e) true 1] s
    = (mkStorage (nextEscrowId s)
         (<[1 := mkEscrow (requester e) (provider e) (amount e) true true false]>
            (escrows s)),
       [transfer (provider e) (amount e)]).
Proof.
  intros s e.
  assert (requester e ≠ provider e) as Hne by (vm_compute; discriminate).
  split; [by repeat split|].
  by destruct (both_confirmations_release s 1 false) as [? _].
Defined.
